(** * cbft app_herder: the memory-admission controller of cmd/cbft/app_herder.go

    A shallow embedding of the herder (quota hierarchy, indexing admission
    monitor, query admission gate and engine event adapter) and the
    properties its specification states about it.

    Conventions.
    - Go's [uint64] is a [Z] in [0, 2^64); every addition and subtraction of
      the source is followed by [wrap64].  Go's [int] is a [Z] wrapped by
      [wrapInt].
    - Go's [float64] is [spec_float] at precision 53 and exponent bound
      1024, with the Standard Library's IEEE-754 operations.
    - Every method body runs under the mutex [a.m], hence is one critical
      section: a function from the herder's state to a result, the new
      state and the effects it performed (log lines and calls on the
      condition variable).  [waitCond.Wait()] is the one place where the mutex is
      released: what the other goroutines did meanwhile is an input of the
      model.
    - The engines are external: what their accessors return at the moment
      of a call is read from a [World]. *)

From Stdlib Require Import ZArith List String Lia Bool.
From Stdlib Require Import Floats.SpecFloat.
From stdpp Require Import base option countable gmap fin_maps.

Open Scope Z_scope.

(** ** Machine integers *)

Definition uint64_modulus : Z := 2 ^ 64.

(** The value a [uint64] operation keeps of the mathematical result. *)
Definition wrap64 (z : Z) : Z := z mod uint64_modulus.

(** Go's [int] on the 64-bit platforms cbft runs on: two's complement. *)
Definition wrapInt (z : Z) : Z := (z + 2 ^ 63) mod 2 ^ 64 - 2 ^ 63.

(** [z] is a value of type [uint64]. *)
Definition is_uint64 (z : Z) : Prop := 0 <= z < uint64_modulus.

(** ** float64 *)

Definition float64 : Type := spec_float.

Definition float64_mul : float64 -> float64 -> float64 := SFmul 53 1024.

(** [float64(u)] for an unsigned integer: round to nearest, ties to even. *)
Definition float64_of_uint64 (u : Z) : float64 := binary_normalize 53 1024 u 0 false.

(** The rational constant [n/d] as the Go compiler rounds it to a float64. *)
Definition float64_of_ratio (n d : Z) : float64 :=
  SFdiv 53 1024 (float64_of_uint64 n) (float64_of_uint64 d).

Section Float64ToUint64.

(** Go leaves [uint64(f)] implementation-dependent when [f] has no
    [uint64] value after truncation (NaN, infinities, negative numbers
    below -1, numbers from 2^64 on): the conversion succeeds with some
    value, which is this parameter's. *)
Variable unrepresentable : float64 -> Z.

(** [uint64(f)]: the fraction is discarded (truncation towards zero). *)
Definition uint64_of_float64 (f : float64) : Z :=
  match f with
  | S754_zero _ => 0
  | S754_finite s m e =>
      let t := Z.shiftl (Z.pos m) e in
      if s then (if t =? 0 then 0 else wrap64 (unrepresentable f))
      else if t <? uint64_modulus then t else wrap64 (unrepresentable f)
  | S754_infinity _ | S754_nan => wrap64 (unrepresentable f)
  end.

End Float64ToUint64.

(** ** The engines, seen from the herder *)

(** An index handle: the [interface{}] the herder uses as map key, a moss
    collection or a scorch index, compared by identity.  The dynamic type
    behind the interface is not represented: the wrappers below hand
    [mossSize] moss collections only and [scorchSize] scorch indexes only,
    so that the type assertions of the two probes succeed. *)
Definition handle : Type := positive.

(** The arguments of a log line or of an error message. *)
Inductive arg : Type :=
| ArgInt (z : Z)
| ArgErr (msg : string).

(** A line written through clog: [log.Printf] or [log.Warnf]. *)
Inductive LogLine : Type :=
| Printf (format : string) (args : list arg)
| Warnf (format : string) (args : list arg).

(** What a call does besides changing the herder: it logs, and it calls
    [a.waitCond.Broadcast()] and [a.waitCond.Wait()]. *)
Inductive Effect : Type :=
| Log (l : LogLine)
| Broadcast
| Wait.

Module moss.

(** [moss.CollectionStats]: the one field the herder reads. *)
Record CollectionStats : Type := { CurDirtyBytes : Z }.

(** [moss.CollectionOptions]: [LowerLevelUpdate] is a function value, of
    which the herder only asks whether it is nil ([None]). *)
Record CollectionOptions : Type := { LowerLevelUpdate : option positive }.

(** The event kinds of moss the herder tells apart; every other kind of
    the library is an [EventKindOther]. *)
Inductive EventKind : Type :=
| EventKindClose
| EventKindBatchExecuteStart
| EventKindPersisterProgress
| EventKindOther (code : Z).

Record Event : Type := { Kind : EventKind; Collection : handle }.

End moss.

Module scorch.

(** The event kinds of scorch the herder tells apart. *)
Inductive EventKind : Type :=
| EventKindClose
| EventKindBatchIntroductionStart
| EventKindPersisterProgress
| EventKindOther (code : Z).

Record Event : Type := { Kind : EventKind; Scorch : handle }.

End scorch.

(** What the engines answer at one moment. *)
Record World : Type := {
  (** [c.Stats()]: the statistics, or the error's text *)
  Stats : handle -> moss.CollectionStats + string;
  (** [c.Options()] *)
  Options : handle -> moss.CollectionOptions;
  (** [s.MemoryUsed()] *)
  MemoryUsed : handle -> Z
}.

(** [type sizeFunc func(interface{}) uint64]: a probe reads the engines and
    may log; it has no access to the herder. *)
Definition sizeFunc : Type := World -> handle -> Z * list LogLine.

(** ** The herder *)

Record appHerder : Type := {
  memQuota : Z;
  appQuota : Z;
  indexQuota : Z;
  queryQuota : Z;
  waiting : Z;
  indexes : gmap handle sizeFunc;
  runningQueryUsed : Z
}.

Definition set_waiting (n : Z) (a : appHerder) : appHerder :=
  {| memQuota := memQuota a; appQuota := appQuota a; indexQuota := indexQuota a;
     queryQuota := queryQuota a; waiting := n; indexes := indexes a;
     runningQueryUsed := runningQueryUsed a |}.

Definition set_indexes (m : gmap handle sizeFunc) (a : appHerder) : appHerder :=
  {| memQuota := memQuota a; appQuota := appQuota a; indexQuota := indexQuota a;
     queryQuota := queryQuota a; waiting := waiting a; indexes := m;
     runningQueryUsed := runningQueryUsed a |}.

Definition set_runningQueryUsed (n : Z) (a : appHerder) : appHerder :=
  {| memQuota := memQuota a; appQuota := appQuota a; indexQuota := indexQuota a;
     queryQuota := queryQuota a; waiting := waiting a; indexes := indexes a;
     runningQueryUsed := n |}.

(** ** Critical sections: state, result and effects *)

Definition M (A : Type) : Type := appHerder -> A * appHerder * list Effect.

Definition ret {A : Type} (x : A) : M A := fun a => (x, a, []).

Definition bind {A B : Type} (c : M A) (k : A -> M B) : M B :=
  fun a =>
    let '(x, a1, t1) := c a in
    let '(y, a2, t2) := k x a1 in
    (y, a2, t1 ++ t2).

Definition get : M appHerder := fun a => (a, a, []).

Definition modify (f : appHerder -> appHerder) : M unit := fun a => (tt, f a, []).

Definition emit (e : Effect) : M unit := fun a => (tt, a, [e]).

Definition when (b : bool) (c : M unit) : M unit := if b then c else ret tt.

#[global] Instance herder_ret : MRet M := @ret.
#[global] Instance herder_bind : MBind M := fun A B k c => bind c k.

Definition log_Printf (format : string) (args : list arg) : M unit :=
  emit (Log (Printf format args)).

(** ** newAppHerder *)

Section Construction.

Variable unrepresentable : float64 -> Z.

Definition newAppHerder (memQuota : Z) (appRatio indexRatio queryRatio : float64)
  : appHerder * list Effect :=
  let appQuota :=
    uint64_of_float64 unrepresentable (float64_mul (float64_of_uint64 memQuota) appRatio) in
  let indexQuota :=
    uint64_of_float64 unrepresentable (float64_mul (float64_of_uint64 appQuota) indexRatio) in
  let queryQuota :=
    uint64_of_float64 unrepresentable (float64_mul (float64_of_uint64 appQuota) queryRatio) in
  ({| memQuota := memQuota; appQuota := appQuota; indexQuota := indexQuota;
      queryQuota := queryQuota; waiting := 0; indexes := ∅; runningQueryUsed := 0 |},
   [Log (Printf "app_herder: memQuota: %d, appQuota: %d, indexQutoa: %d, queryQuota: %d"
      [ArgInt memQuota; ArgInt appQuota; ArgInt indexQuota; ArgInt queryQuota])]).

End Construction.

(** ** Indexing callbacks *)

Definition onClose (c : handle) : M unit :=
  a ← get;
  when (waiting a >? 0)
    (log_Printf "app_herder: close progress, waiting: %d" [ArgInt (waiting a)]) ;;
  modify (fun a => set_indexes (delete c (indexes a)) a).

(** The loop [for index, indexSizeFunc := range a.indexes] adds the probes'
    readings in [uint64].  Go leaves the iteration order of a map open; the
    sum does not depend on it, the order of the probes' log lines does and
    is here the order [map_fold] visits the entries in. *)
Definition indexingMemoryLOCKED (w : World) : M Z :=
  fun a =>
    let '(rv, tr) :=
      map_fold (fun index (indexSizeFunc : sizeFunc) '(rv, tr) =>
                  let '(n, t) := indexSizeFunc w index in (wrap64 (rv + n), tr ++ map Log t))
               (0, []) (indexes a) in
    (rv, a, tr).

Definition overMemQuotaForIndexingLOCKED (w : World) : M bool :=
  memUsed ← indexingMemoryLOCKED w;
  a ← get;
  if memUsed >? indexQuota a then
    log_Printf "app_herder: indexing mem used %d over indexing quota %d"
      [ArgInt memUsed; ArgInt (indexQuota a)] ;;
    ret true
  else
    let memUsed := wrap64 (memUsed + runningQueryUsed a) in
    when (memUsed >? appQuota a)
      (log_Printf "app_herder: indexing mem plus query %d now over app quota %d"
         [ArgInt memUsed; ArgInt (appQuota a)]) ;;
    ret (memUsed >? appQuota a).

Definition onPersisterProgress : M unit :=
  a ← get;
  when (waiting a >? 0)
    (log_Printf "app_herder: persistence progress, waiting: %d" [ArgInt (waiting a)]) ;;
  emit Broadcast.

(** ** Query interface *)

(** The value [fmt.Errorf] builds: the format and its arguments. *)
Inductive error : Type := Errorf (format : string) (args : list arg).

(** The two rejections of [StartQuery]. *)
Definition errQueryQuota (size running quota : Z) : error :=
  Errorf "app_herder: this query %d plus running queries: %d would exceed query quota: %d"
    [ArgInt size; ArgInt running; ArgInt quota].

Definition errAppQuota (size running indexing quota : Z) : error :=
  Errorf
    "app_herder: this query %d plus running queries: %d plus indexing: %d would exceed app quota: %d"
    [ArgInt size; ArgInt running; ArgInt indexing; ArgInt quota].

Definition StartQuery (w : World) (size : Z) : M (option error) :=
  a ← get;
  let memUsed := wrap64 (runningQueryUsed a + size) in
  if memUsed >? queryQuota a then
    ret (Some (errQueryQuota size (runningQueryUsed a) (queryQuota a)))
  else
    indexingMem ← indexingMemoryLOCKED w;
    let memUsed := wrap64 (memUsed + indexingMem) in
    if memUsed >? appQuota a then
      ret (Some (errAppQuota size (runningQueryUsed a) indexingMem (appQuota a)))
    else
      modify (fun a => set_runningQueryUsed (wrap64 (runningQueryUsed a + size)) a) ;;
      ret None.

Definition EndQuery (size : Z) : M unit :=
  modify (fun a => set_runningQueryUsed (wrap64 (runningQueryUsed a - size)) a) ;;
  a ← get;
  when (waiting a >? 0)
    (log_Printf "app_herder: query ended, waiting: %d" [ArgInt (waiting a)]) ;;
  emit Broadcast.

(** ** Registration: the admission wait *)

(** One return of [a.waitCond.Wait()]: the mutex was released, [others] is
    what the other goroutines did to the herder until this writer held the
    mutex again, [probes] what the engines answer from then on. *)
Record Wake : Type := { others : appHerder -> appHerder; probes : World }.

(** How far a call of [onBatchExecuteStart] got on the wake-ups it was
    given: it returned (with the herder, the engines' answers and the
    mutex as they were at that moment), or it is still blocked in [Wait]. *)
Inductive Outcome : Type :=
| Returned (a : appHerder) (w : World) (tr : list Effect)
| Parked (a : appHerder) (tr : list Effect).

Definition after (tr : list Effect) (o : Outcome) : Outcome :=
  match o with
  | Returned a w tr' => Returned a w (tr ++ tr')
  | Parked a tr' => Parked a (tr ++ tr')
  end.

(** The two halves of the loop's body, before and after [Wait]. *)
Definition beforeWait : M unit :=
  log_Printf "app_herder: waiting for more memory to be available" [];;
  modify (fun a => set_waiting (wrapInt (waiting a + 1)) a).

Definition afterWait : M unit :=
  modify (fun a => set_waiting (wrapInt (waiting a - 1)) a);;
  log_Printf "app_herder: resuming upon memory reduction .." [].

(** The loop [for a.overMemQuotaForIndexingLOCKED() { ... }]: it goes on as
    long as there are wake-ups to consume. *)
Fixpoint waitForMemory (wakes : list Wake) (w : World) (a : appHerder) : Outcome :=
  let '(over, a, t1) := overMemQuotaForIndexingLOCKED w a in
  if over then
    let '(_, a, t2) := beforeWait a in
    match wakes with
    | [] => Parked a (t1 ++ t2 ++ [Wait])
    | k :: wakes =>
        let '(_, a, t3) := afterWait (others k a) in
        after (t1 ++ t2 ++ [Wait] ++ t3) (waitForMemory wakes (probes k) a)
    end
  else Returned a w t1.

Definition onBatchExecuteStart (c : handle) (s : sizeFunc)
  (wakes : list Wake) (w : World) (a : appHerder) : Outcome :=
  waitForMemory wakes w (set_indexes (<[c := s]> (indexes a)) a).

(** A call that never waits, as an [Outcome]. *)
Definition returns (w : World) (c : M unit) (a : appHerder) : Outcome :=
  let '(_, a, tr) := c a in Returned a w tr.

(** ** Moss wrapper *)

Definition mossSize : sizeFunc :=
  fun w c =>
    match Stats w c with
    | inr err => (0, [Warnf "app_herder: moss stats, err: %v" [ArgErr err]])
    | inl s => (moss.CurDirtyBytes s, [])
    end.

Definition onMossEvent (event : moss.Event)
  (wakes : list Wake) (w : World) (a : appHerder) : Outcome :=
  match moss.LowerLevelUpdate (Options w (moss.Collection event)) with
  | None => Returned a w []
  | Some _ =>
      match moss.Kind event with
      | moss.EventKindClose => returns w (onClose (moss.Collection event)) a
      | moss.EventKindBatchExecuteStart =>
          onBatchExecuteStart (moss.Collection event) mossSize wakes w a
      | moss.EventKindPersisterProgress => returns w onPersisterProgress a
      | moss.EventKindOther _ => Returned a w []
      end
  end.

(** [MossHerderOnEvent] returns the closure that calls [onMossEvent]. *)
Definition MossHerderOnEvent : moss.Event -> list Wake -> World -> appHerder -> Outcome :=
  fun event => onMossEvent event.

(** ** Scorch wrapper *)

Definition scorchSize : sizeFunc := fun w s => (MemoryUsed w s, []).

Definition onScorchEvent (event : scorch.Event)
  (wakes : list Wake) (w : World) (a : appHerder) : Outcome :=
  match scorch.Kind event with
  | scorch.EventKindClose => returns w (onClose (scorch.Scorch event)) a
  | scorch.EventKindBatchIntroductionStart =>
      onBatchExecuteStart (scorch.Scorch event) scorchSize wakes w a
  | scorch.EventKindPersisterProgress => returns w onPersisterProgress a
  | scorch.EventKindOther _ => Returned a w []
  end.

(** [ScorchHerderOnEvent] returns the closure that calls [onScorchEvent]. *)
Definition ScorchHerderOnEvent : scorch.Event -> list Wake -> World -> appHerder -> Outcome :=
  fun event => onScorchEvent event.

(** ** Reading a call's result *)

Definition stateAfter {A : Type} (c : M A) (a : appHerder) : appHerder := (c a).1.2.

Definition herderOf (o : Outcome) : appHerder :=
  match o with
  | Returned a _ _ => a
  | Parked a _ => a
  end.

Definition traceOf (o : Outcome) : list Effect :=
  match o with
  | Returned _ _ tr => tr
  | Parked _ tr => tr
  end.

(** The four budgets. *)
Definition quotas (a : appHerder) : Z * Z * Z * Z :=
  (memQuota a, appQuota a, indexQuota a, queryQuota a).

(** The combined usage test, as the boolean the wait loop branches on. *)
Definition overBudget (w : World) (a : appHerder) : bool :=
  (overMemQuotaForIndexingLOCKED w a).1.1.

(** ** The specification's usage sum *)

(** The specification's [indexMem]: the sum of [sizeProbe(handle)] over the
    tracked entries, as a mathematical integer (no wrap-around). *)
Definition sumSizeProbe (w : World) (a : appHerder) : Z :=
  map_fold (fun index (s : sizeFunc) acc => acc + (s w index).1) 0 (indexes a).

(** ** Log lines and traces *)

(** The warning of [mossSize]. *)
Definition mossStatsWarning (msg : string) : LogLine :=
  Warnf "app_herder: moss stats, err: %v" [ArgErr msg].

(** A trace in which nothing happens but logging. *)
Definition only_logs (tr : list Effect) : Prop := Forall (fun e => exists l, e = Log l) tr.

(** ** The specification's exact products *)

(** The specification's [total*ratio] for a ratio that is zero or a
    positive number [m * 2^e]: the exact product, rounded down and rounded
    up to an integer. *)
Definition productFloor (total : Z) (ratio : float64) : Z :=
  match ratio with
  | S754_finite false m e => Z.shiftl (total * Z.pos m) e
  | _ => 0
  end.

Definition productCeil (total : Z) (ratio : float64) : Z :=
  match ratio with
  | S754_finite false m e => - Z.shiftl (- (total * Z.pos m)) e
  | _ => 0
  end.

(** A ratio that is not negative: zero, or a positive number. *)
Definition nonnegative (ratio : float64) : Prop :=
  match ratio with
  | S754_zero _ => True
  | S754_finite false _ _ => True
  | _ => False
  end.

(** The bits shifted out of a mantissa so far were all zero. *)
Definition exactR (mrs : shr_record) : Prop := shr_r mrs = false /\ shr_s mrs = false.

(** ** The other goroutines *)

(** What a goroutine does to the herder in one critical section: a call of
    a method up to its return or, for a writer, up to its next [Wait], and
    the wake-up of a writer that was blocked in [Wait]. *)
Inductive Call : Type :=
| CallOnClose (c : handle)
| CallOnBatchExecuteStart (c : handle) (s : sizeFunc)
| CallWakeUp
| CallOnPersisterProgress
| CallStartQuery (size : Z)
| CallEndQuery (size : Z)
| CallOnMossEvent (event : moss.Event)
| CallOnScorchEvent (event : scorch.Event).

Definition runCall (w : World) (call : Call) (a : appHerder) : appHerder :=
  match call with
  | CallOnClose c => stateAfter (onClose c) a
  | CallOnBatchExecuteStart c s => herderOf (onBatchExecuteStart c s [] w a)
  | CallWakeUp => herderOf (waitForMemory [] w (stateAfter afterWait a))
  | CallOnPersisterProgress => stateAfter onPersisterProgress a
  | CallStartQuery size => stateAfter (StartQuery w size) a
  | CallEndQuery size => stateAfter (EndQuery size) a
  | CallOnMossEvent event => herderOf (onMossEvent event [] w a)
  | CallOnScorchEvent event => herderOf (onScorchEvent event [] w a)
  end.

(** An interleaving: critical sections in the order they took the mutex,
    each with what the engines answered at that moment. *)
Definition runCalls (calls : list (World * Call)) (a : appHerder) : appHerder :=
  foldl (fun a '(w, call) => runCall w call a) a calls.

(** The wake-up of a writer after the critical sections [calls]. *)
Definition wakeAfter (sched : list (World * Call) * World) : Wake :=
  {| others := runCalls sched.1; probes := sched.2 |}.

(** ** The specification's example scenarios *)

(** Scenario 1: total 1000 and ratios 0.8, 0.5, 0.5. *)
Definition scenarioHerder : appHerder :=
  {| memQuota := 1000; appQuota := 800; indexQuota := 400; queryQuota := 400;
     waiting := 0; indexes := ∅; runningQueryUsed := 0 |}.

Definition indexA : handle := 1%positive.
Definition indexB : handle := 2%positive.
Definition indexC : handle := 3%positive.

(** Index A uses 300 bytes and index B 200; the statistics of the moss
    collection C cannot be read, and C did not opt in to the herder. *)
Definition scenarioWorld : World :=
  {| Stats := fun c =>
       if (c =? indexC)%positive then inr "collection closed"%string
       else inl {| moss.CurDirtyBytes := 100 |};
     Options := fun c =>
       {| moss.LowerLevelUpdate := if (c =? indexC)%positive then None else Some 1%positive |};
     MemoryUsed := fun c => if (c =? indexA)%positive then 300 else 200 |}.

(** The engines once everything was persisted. *)
Definition idleWorld : World :=
  {| Stats := fun _ => inl {| moss.CurDirtyBytes := 0 |};
     Options := fun _ => {| moss.LowerLevelUpdate := Some 1%positive |};
     MemoryUsed := fun _ => 0 |}.

(** Scenario 1 after index A registered: 300 bytes in use. *)
Definition herderWithA : appHerder :=
  herderOf (onBatchExecuteStart indexA scorchSize [] scenarioWorld scenarioHerder).

(** A herder whose caller ended a query it had not started: one call of
    [EndQuery(1)] on the fresh herder of scenario 1, and then index A
    registers. *)
Definition herderAfterUnmatchedEnd : appHerder :=
  herderOf (onBatchExecuteStart indexA scorchSize [] scenarioWorld
              (stateAfter (EndQuery 1) scenarioHerder)).

(** The accounting of index A underflowed: its [MemoryUsed] reports
    2^64-100 bytes, and index B uses 300. *)
Definition underflowWorld : World :=
  {| Stats := fun _ => inl {| moss.CurDirtyBytes := 0 |};
     Options := fun _ => {| moss.LowerLevelUpdate := Some 1%positive |};
     MemoryUsed := fun c => if (c =? indexA)%positive then 2 ^ 64 - 100 else 300 |}.

(** Index A registers in that world (and blocks), then index B does. *)
Definition herderWithUnderflow : appHerder :=
  herderOf (onBatchExecuteStart indexB scorchSize [] underflowWorld
              (herderOf (onBatchExecuteStart indexA scorchSize [] underflowWorld
                           scenarioHerder))).

(** Scenario 3: queries of 350 bytes are running. *)
Definition herderWithQueries : appHerder :=
  stateAfter (StartQuery idleWorld 350) scenarioHerder.

(** One query of one byte is running. *)
Definition herderWithOneByte : appHerder :=
  stateAfter (StartQuery idleWorld 1) scenarioHerder.

(** Scenario 2: index B registers after A, blocks, and wakes up once
    index A has been closed. *)
Definition scenarioTwo : Outcome :=
  onBatchExecuteStart indexB scorchSize
    [wakeAfter ([(scenarioWorld, CallOnClose indexA)], scenarioWorld)]
    scenarioWorld herderWithA.

(** ** Accounting over an interleaving *)

(** What one critical section adds to the bytes of the running queries:
    the size of a query [StartQuery] admitted, less the size [EndQuery]
    was given. *)
Definition queryDelta (w : World) (call : Call) (a : appHerder) : Z :=
  match call with
  | CallStartQuery size =>
      match (StartQuery w size a).1.1 with
      | None => size
      | Some _ => 0
      end
  | CallEndQuery size => - size
  | _ => 0
  end.

(** The same over an interleaving: the admitted sizes less the ended ones. *)
Fixpoint queryNet (calls : list (World * Call)) (a : appHerder) : Z :=
  match calls with
  | [] => 0
  | (w, call) :: calls => queryDelta w call a + queryNet calls (runCall w call a)
  end.

(** Every [EndQuery] of the interleaving is given at most the bytes that
    are running when it is called. *)
Fixpoint endsWithinRunning (calls : list (World * Call)) (a : appHerder) : Prop :=
  match calls with
  | [] => True
  | (w, call) :: calls =>
      match call with
      | CallEndQuery size => 0 <= size <= runningQueryUsed a
      | _ => True
      end
      /\ endsWithinRunning calls (runCall w call a)
  end.

(** A ratio between 0 and 1: zero, or [m * 2^e] with [m <= 2^-e]. *)
Definition atMostOne (ratio : float64) : Prop :=
  match ratio with
  | S754_zero _ => True
  | S754_finite false m e => e <= 0 /\ Z.pos m <= 2 ^ (- e)
  | _ => False
  end.

(** The reading of the probe a handle is tracked with, 0 when it is not
    tracked. *)
Definition readingOf (w : World) (a : appHerder) (c : handle) : Z :=
  match indexes a !! c with
  | Some s => (s w c).1
  | None => 0
  end.

(** Scenario 5 in the middle of indexing: two queries are admitted, index
    A closes, and the queries end in the order they started. *)
Definition scenarioQueries : list (World * Call) :=
  [(scenarioWorld, CallStartQuery 50); (scenarioWorld, CallStartQuery 30);
   (scenarioWorld, CallOnClose indexA);
   (scenarioWorld, CallEndQuery 50); (scenarioWorld, CallEndQuery 30)].

(** * Properties *)

(** Runs the monadic steps of a critical section. *)
Ltac run_M :=
  unfold mbind, mret, herder_bind, herder_ret, bind, ret, get, modify, emit, when,
    log_Printf in *; simpl in *.

(** ** Arithmetic of [uint64] *)

Lemma uint64_modulus_pos : 0 < uint64_modulus.
Proof. reflexivity. Qed.

Lemma wrap64_range (z : Z) : is_uint64 (wrap64 z).
Proof. unfold is_uint64, wrap64. apply Z.mod_pos_bound, uint64_modulus_pos. Qed.

Lemma wrap64_small (z : Z) : is_uint64 z -> wrap64 z = z.
Proof. intros H. apply Z.mod_small, H. Qed.

Lemma wrap64_add_l (x y : Z) : wrap64 (wrap64 x + y) = wrap64 (x + y).
Proof. unfold wrap64. apply Zplus_mod_idemp_l. Qed.

Lemma wrap64_add_r (x y : Z) : wrap64 (x + wrap64 y) = wrap64 (x + y).
Proof. unfold wrap64. apply Zplus_mod_idemp_r. Qed.

Lemma wrap64_sub_l (x y : Z) : wrap64 (wrap64 x - y) = wrap64 (x - y).
Proof. unfold wrap64. apply Zminus_mod_idemp_l. Qed.

(** Adding and then subtracting the same amount in [uint64] is the
    identity, whether or not the addition wrapped. *)
Lemma wrap64_add_sub (x y : Z) : is_uint64 x -> wrap64 (wrap64 (x + y) - y) = x.
Proof.
  intros Hx. rewrite wrap64_sub_l.
  replace (x + y - y) with x by lia. apply wrap64_small, Hx.
Qed.

Lemma gtb_true (x y : Z) : (x >? y) = true <-> x > y.
Proof. rewrite Z.gtb_ltb, Z.ltb_lt. lia. Qed.

Lemma gtb_false (x y : Z) : (x >? y) = false <-> x <= y.
Proof. rewrite Z.gtb_ltb, Z.ltb_ge. reflexivity. Qed.

(** ** The usage sum *)

(** The loop of [indexingMemoryLOCKED] computes the specification's sum
    modulo 2^64. *)
Lemma indexingMemory_fold (w : World) (m : gmap handle sizeFunc) :
  (map_fold (fun index (indexSizeFunc : sizeFunc) '(rv, tr) =>
               let '(n, t) := indexSizeFunc w index in (wrap64 (rv + n), tr ++ map Log t))
            (0, []) m).1
  = wrap64 (map_fold (fun index (s : sizeFunc) acc => acc + (s w index).1) 0 m).
Proof.
  rewrite !map_fold_foldr.
  induction (map_to_list m) as [|[i s] l IH]; simpl.
  - reflexivity.
  - destruct (foldr _ _ l) as [rv tr]. simpl in IH. subst rv.
    destruct (s w i) as [n t]. simpl. apply wrap64_add_l.
Qed.

Lemma indexingMemoryLOCKED_value (w : World) (a : appHerder) :
  (indexingMemoryLOCKED w a).1 = (wrap64 (sumSizeProbe w a), a).
Proof.
  unfold indexingMemoryLOCKED, sumSizeProbe.
  rewrite <- indexingMemory_fold.
  destruct (map_fold _ _ (indexes a)) as [rv tr]. reflexivity.
Qed.

(** The probes only log: nothing else is among the effects of the sum. *)
Lemma indexingMemoryLOCKED_trace (w : World) (a : appHerder) :
  Forall (fun e => exists l, e = Log l) (indexingMemoryLOCKED w a).2.
Proof.
  unfold indexingMemoryLOCKED. rewrite map_fold_foldr.
  induction (map_to_list (indexes a)) as [|[i s] l IH]; simpl.
  - constructor.
  - destruct (foldr _ _ l) as [rv tr]. destruct (s w i) as [n t]. simpl in *.
    apply Forall_app. split; [exact IH|].
    apply Forall_forall. intros e He. apply list_elem_of_In, in_map_iff in He.
    destruct He as [x [<- _]]. eauto.
Qed.

Lemma sumSizeProbe_comm (w : World) (j1 j2 : handle) (z1 z2 : sizeFunc) (y : Z) :
  y + (z2 w j2).1 + (z1 w j1).1 = y + (z1 w j1).1 + (z2 w j2).1.
Proof. lia. Qed.

Lemma sumSizeProbe_insert (w : World) (a : appHerder) (c : handle) (s : sizeFunc) :
  indexes a !! c = None ->
  sumSizeProbe w (set_indexes (<[c := s]> (indexes a)) a) = sumSizeProbe w a + (s w c).1.
Proof.
  intros Hc. unfold sumSizeProbe. simpl.
  rewrite map_fold_insert_L; [reflexivity| |exact Hc].
  intros. apply sumSizeProbe_comm.
Qed.

Lemma sumSizeProbe_delete (w : World) (a : appHerder) (c : handle) (s : sizeFunc) :
  indexes a !! c = Some s ->
  sumSizeProbe w (set_indexes (delete c (indexes a)) a) = sumSizeProbe w a - (s w c).1.
Proof.
  intros Hc. unfold sumSizeProbe. simpl.
  rewrite (map_fold_delete_L _ _ c s (indexes a)); [lia| |exact Hc].
  intros. apply sumSizeProbe_comm.
Qed.

(** ** The combined usage test *)

(** The test reads the herder and does not change it; its value is the
    disjunction of the two comparisons, on sums taken in [uint64]. *)
Lemma overMemQuota_run (w : World) (a : appHerder) :
  (overMemQuotaForIndexingLOCKED w a).1
  = ((wrap64 (sumSizeProbe w a) >? indexQuota a)
     || (wrap64 (sumSizeProbe w a + runningQueryUsed a) >? appQuota a), a).
Proof.
  unfold overMemQuotaForIndexingLOCKED. run_M.
  pose proof (indexingMemoryLOCKED_value w a) as Hv.
  destruct (indexingMemoryLOCKED w a) as [[v a1] t]. simpl in Hv.
  injection Hv as -> ->.
  rewrite wrap64_add_l.
  destruct (wrap64 (sumSizeProbe w a) >? indexQuota a); simpl; [reflexivity|].
  destruct (wrap64 (sumSizeProbe w a + runningQueryUsed a) >? appQuota a); reflexivity.
Qed.

Lemma overBudget_wrap (w : World) (a : appHerder) :
  overBudget w a = true <->
  wrap64 (sumSizeProbe w a) > indexQuota a
  \/ wrap64 (sumSizeProbe w a + runningQueryUsed a) > appQuota a.
Proof.
  unfold overBudget. rewrite overMemQuota_run. simpl.
  rewrite orb_true_iff, !gtb_true. reflexivity.
Qed.

(** C1 (as amended).  The combined usage test reports over-budget if and
    only if the sum of the probes, taken modulo 2^64, is strictly greater
    than [indexQuota], or that sum plus [runningQueryUsed], again modulo
    2^64, is strictly greater than [appQuota]; the test leaves the herder
    as it was.  Whenever the sums do not wrap (the probes' sum is not
    negative and the sum with [runningQueryUsed] is below 2^64), this is
    the test on the mathematical sums, and totals that are at most their
    quotas, equality included, are not over budget. *)
Theorem overMemQuotaForIndexing_strict (w : World) (a : appHerder) :
  (overBudget w a = true <->
     wrap64 (sumSizeProbe w a) > indexQuota a
     \/ wrap64 (sumSizeProbe w a + runningQueryUsed a) > appQuota a)
  /\ stateAfter (overMemQuotaForIndexingLOCKED w) a = a
  /\ (0 <= sumSizeProbe w a -> 0 <= runningQueryUsed a ->
      sumSizeProbe w a + runningQueryUsed a < uint64_modulus ->
      (overBudget w a = true <->
         sumSizeProbe w a > indexQuota a
         \/ sumSizeProbe w a + runningQueryUsed a > appQuota a)
      /\ (sumSizeProbe w a <= indexQuota a ->
          sumSizeProbe w a + runningQueryUsed a <= appQuota a ->
          overBudget w a = false)).
Proof.
  split; [apply overBudget_wrap|]. split.
  - unfold stateAfter. rewrite overMemQuota_run. reflexivity.
  - intros Hs Hr Hlt.
    assert (Hiff : overBudget w a = true <->
              sumSizeProbe w a > indexQuota a
              \/ sumSizeProbe w a + runningQueryUsed a > appQuota a).
    { rewrite overBudget_wrap.
      rewrite !wrap64_small by (unfold is_uint64; lia). reflexivity. }
    split; [exact Hiff|].
    intros Hi Ha. apply not_true_is_false. intros E.
    apply Hiff in E. lia.
Qed.

(** C1, the claim as stated fails where a sum wraps.  (1) After an
    unmatched [EndQuery(1)], [runningQueryUsed] is 2^64-1; with index A at
    300 bytes the sum 300 + (2^64-1) is far above [appQuota] = 800, and the
    test computes 299 and reports not over budget.  (2) With no query
    running, index A reporting 2^64-100 bytes and index B 300, the sum of
    the probes is 2^64+200, far above [indexQuota] = 400, and the test
    computes 200 and reports not over budget. *)
Lemma overMemQuotaForIndexing_wraps :
  (overBudget scenarioWorld herderAfterUnmatchedEnd = false
   /\ sumSizeProbe scenarioWorld herderAfterUnmatchedEnd = 300
   /\ runningQueryUsed herderAfterUnmatchedEnd = 2 ^ 64 - 1
   /\ sumSizeProbe scenarioWorld herderAfterUnmatchedEnd
      + runningQueryUsed herderAfterUnmatchedEnd > appQuota herderAfterUnmatchedEnd)
  /\ (overBudget underflowWorld herderWithUnderflow = false
      /\ runningQueryUsed herderWithUnderflow = 0
      /\ sumSizeProbe underflowWorld herderWithUnderflow = 2 ^ 64 + 200
      /\ sumSizeProbe underflowWorld herderWithUnderflow > indexQuota herderWithUnderflow).
Proof. vm_compute. repeat split; reflexivity. Qed.

(** C1 at scenario 1: index A alone, 300 <= 400 and 300 <= 800, is within
    budget. *)
Lemma overMemQuotaForIndexing_strict_witness :
  overBudget scenarioWorld herderWithA = false.
Proof.
  refine (proj2 (proj2 (proj2 (overMemQuotaForIndexing_strict scenarioWorld herderWithA))
                   _ _ _) _ _); vm_compute; first [reflexivity | discriminate].
Defined.

(** ** The query admission gate *)

(** [StartQuery] by cases, with its sums in [uint64]. *)
Lemma StartQuery_run (w : World) (size : Z) (a : appHerder) :
  (StartQuery w size a).1 =
    if wrap64 (runningQueryUsed a + size) >? queryQuota a then
      (Some (errQueryQuota size (runningQueryUsed a) (queryQuota a)), a)
    else if wrap64 (runningQueryUsed a + size + sumSizeProbe w a) >? appQuota a then
      (Some (errAppQuota size (runningQueryUsed a) (wrap64 (sumSizeProbe w a)) (appQuota a)), a)
    else (None, set_runningQueryUsed (wrap64 (runningQueryUsed a + size)) a).
Proof.
  unfold StartQuery. run_M.
  destruct (wrap64 (runningQueryUsed a + size) >? queryQuota a); [reflexivity|].
  pose proof (indexingMemoryLOCKED_value w a) as Hv.
  destruct (indexingMemoryLOCKED w a) as [[v a1] t]. simpl in Hv.
  injection Hv as -> ->.
  rewrite wrap64_add_l, wrap64_add_r.
  destruct (wrap64 (runningQueryUsed a + size + sumSizeProbe w a) >? appQuota a);
    reflexivity.
Qed.

(** A query rejected on the query quota did not even read the probes. *)
Lemma StartQuery_query_quota (w : World) (size : Z) (a : appHerder) :
  wrap64 (runningQueryUsed a + size) > queryQuota a ->
  StartQuery w size a
  = (Some (errQueryQuota size (runningQueryUsed a) (queryQuota a)), a, []).
Proof.
  intros H. apply gtb_true in H. unfold StartQuery. run_M. rewrite H. reflexivity.
Qed.

(** C2 (as amended).  With [memUsed] the [uint64] sum
    [runningQueryUsed + size] and [total] the [uint64] sum of that and the
    probes: [StartQuery(size)] admits, returning no error and storing
    [memUsed] as the new [runningQueryUsed], if and only if
    [memUsed <= queryQuota] and [total <= appQuota]; when the first fails it
    rejects with the query-quota error, when only the second fails with the
    application-quota error, and a rejection leaves the whole herder as it
    was.  Whenever [runningQueryUsed + size + sum of the probes] does not
    wrap, these are the comparisons on the mathematical sums. *)
Theorem StartQuery_admission (w : World) (size : Z) (a : appHerder) :
  (wrap64 (runningQueryUsed a + size) > queryQuota a ->
   StartQuery w size a
   = (Some (errQueryQuota size (runningQueryUsed a) (queryQuota a)), a, []))
  /\ (wrap64 (runningQueryUsed a + size) <= queryQuota a ->
      wrap64 (runningQueryUsed a + size + sumSizeProbe w a) > appQuota a ->
      (StartQuery w size a).1
      = (Some (errAppQuota size (runningQueryUsed a) (wrap64 (sumSizeProbe w a))
                 (appQuota a)), a))
  /\ (wrap64 (runningQueryUsed a + size) <= queryQuota a ->
      wrap64 (runningQueryUsed a + size + sumSizeProbe w a) <= appQuota a ->
      (StartQuery w size a).1
      = (None, set_runningQueryUsed (wrap64 (runningQueryUsed a + size)) a))
  /\ ((StartQuery w size a).1.1 = None <->
      wrap64 (runningQueryUsed a + size) <= queryQuota a
      /\ wrap64 (runningQueryUsed a + size + sumSizeProbe w a) <= appQuota a)
  /\ (0 <= runningQueryUsed a -> 0 <= size -> 0 <= sumSizeProbe w a ->
      runningQueryUsed a + size + sumSizeProbe w a < uint64_modulus ->
      ((StartQuery w size a).1.1 = None <->
       runningQueryUsed a + size <= queryQuota a
       /\ runningQueryUsed a + size + sumSizeProbe w a <= appQuota a)).
Proof.
  assert (Hiff : (StartQuery w size a).1.1 = None <->
      wrap64 (runningQueryUsed a + size) <= queryQuota a
      /\ wrap64 (runningQueryUsed a + size + sumSizeProbe w a) <= appQuota a).
  { rewrite StartQuery_run.
    destruct (wrap64 (runningQueryUsed a + size) >? queryQuota a) eqn:E1.
    - apply gtb_true in E1. simpl. split; [discriminate | lia].
    - apply gtb_false in E1.
      destruct (wrap64 (runningQueryUsed a + size + sumSizeProbe w a) >? appQuota a) eqn:E2.
      + apply gtb_true in E2. simpl. split; [discriminate | lia].
      + apply gtb_false in E2. simpl. split; [intros _; lia | reflexivity]. }
  split; [apply StartQuery_query_quota|].
  split.
  { intros H1 H2. rewrite StartQuery_run.
    apply gtb_false in H1. apply gtb_true in H2. rewrite H1, H2. reflexivity. }
  split.
  { intros H1 H2. rewrite StartQuery_run.
    apply gtb_false in H1. apply gtb_false in H2. rewrite H1, H2. reflexivity. }
  split; [exact Hiff|].
  intros Hr Hs Hp Hlt. rewrite Hiff.
  rewrite !wrap64_small by (unfold is_uint64; lia). reflexivity.
Qed.

(** C2, the claim as stated fails where the sum wraps.  With one byte of
    queries running, [StartQuery(2^64-1)] computes [memUsed] = 0 and
    admits, although 1 + (2^64-1) is above the query quota of 400. *)
Lemma StartQuery_wraps :
  (StartQuery scenarioWorld (2 ^ 64 - 1) herderWithOneByte).1.1 = None
  /\ runningQueryUsed herderWithOneByte = 1
  /\ runningQueryUsed herderWithOneByte + (2 ^ 64 - 1) > queryQuota herderWithOneByte.
Proof. vm_compute. repeat split; reflexivity. Qed.

(** C2 at scenario 3: 350 bytes running, [StartQuery(100)] is rejected on
    the query quota (450 > 400) and the herder is as before. *)
Lemma StartQuery_admission_witness :
  StartQuery scenarioWorld 100 herderWithQueries
  = (Some (errQueryQuota 100 350 400), herderWithQueries, []).
Proof.
  refine (proj1 (StartQuery_admission scenarioWorld 100 herderWithQueries) _).
  vm_compute. reflexivity.
Defined.

Lemma EndQuery_run (size : Z) (a : appHerder) :
  (EndQuery size a).1 = (tt, set_runningQueryUsed (wrap64 (runningQueryUsed a - size)) a).
Proof.
  unfold EndQuery. run_M. destruct (waiting a >? 0); reflexivity.
Qed.

Lemma set_runningQueryUsed_same (a : appHerder) :
  set_runningQueryUsed (runningQueryUsed a) a = a.
Proof. destruct a. reflexivity. Qed.

Lemma set_runningQueryUsed_twice (n m : Z) (a : appHerder) :
  set_runningQueryUsed n (set_runningQueryUsed m a) = set_runningQueryUsed n a.
Proof. reflexivity. Qed.

(** C5.  After a [StartQuery(size)] that admitted, [EndQuery(size)] puts
    [runningQueryUsed] back to its value before the admission (and with it
    the whole herder), whatever the size and whether or not the addition
    wrapped. *)
Theorem EndQuery_restores (w : World) (size : Z) (a : appHerder) :
  is_uint64 (runningQueryUsed a) ->
  (StartQuery w size a).1.1 = None ->
  runningQueryUsed (stateAfter (EndQuery size) (stateAfter (StartQuery w size) a))
  = runningQueryUsed a
  /\ stateAfter (EndQuery size) (stateAfter (StartQuery w size) a) = a.
Proof.
  intros Hr Hadm.
  assert (Hst : stateAfter (StartQuery w size) a
                = set_runningQueryUsed (wrap64 (runningQueryUsed a + size)) a).
  { unfold stateAfter. rewrite StartQuery_run in *.
    destruct (wrap64 (runningQueryUsed a + size) >? queryQuota a); [discriminate|].
    destruct (wrap64 (runningQueryUsed a + size + sumSizeProbe w a) >? appQuota a);
      [discriminate | reflexivity]. }
  assert (Hend : stateAfter (EndQuery size) (stateAfter (StartQuery w size) a) = a).
  { rewrite Hst. unfold stateAfter at 1. rewrite EndQuery_run. simpl.
    rewrite set_runningQueryUsed_twice, wrap64_add_sub by exact Hr.
    apply set_runningQueryUsed_same. }
  rewrite Hend. split; reflexivity.
Qed.

(** C5 at scenario 5: [StartQuery(50)] is admitted and [EndQuery(50)] brings
    [runningQueryUsed] back to 0. *)
Lemma EndQuery_restores_witness :
  runningQueryUsed
    (stateAfter (EndQuery 50) (stateAfter (StartQuery scenarioWorld 50) scenarioHerder)) = 0.
Proof.
  refine (proj1 (EndQuery_restores scenarioWorld 50 scenarioHerder _ _)).
  - vm_compute. split; [discriminate | reflexivity].
  - vm_compute. reflexivity.
Defined.

(** C10.  The arithmetic on [runningQueryUsed] is modulo 2^64 and
    unguarded.  (1) When [runningQueryUsed + size] reaches 2^64,
    [StartQuery] tests the sum less 2^64, and admits if that is within the
    quotas; so with one byte running, [StartQuery(2^64-1)] is admitted
    although the true total is above every quota, and [runningQueryUsed]
    becomes 0.  (2) [EndQuery(size)] with [size] above [runningQueryUsed]
    leaves [runningQueryUsed - size + 2^64]; an unmatched [EndQuery(1)] on
    a fresh herder leaves 2^64-1. *)
Theorem runningQueryUsed_wraps :
  (forall (w : World) (size : Z) (a : appHerder),
     is_uint64 (runningQueryUsed a) -> is_uint64 size ->
     uint64_modulus <= runningQueryUsed a + size ->
     runningQueryUsed a + size - uint64_modulus <= queryQuota a ->
     wrap64 (runningQueryUsed a + size + sumSizeProbe w a) <= appQuota a ->
     (StartQuery w size a).1.1 = None
     /\ runningQueryUsed (stateAfter (StartQuery w size) a)
        = runningQueryUsed a + size - uint64_modulus)
  /\ ((StartQuery scenarioWorld (2 ^ 64 - 1) herderWithOneByte).1.1 = None
      /\ runningQueryUsed (stateAfter (StartQuery scenarioWorld (2 ^ 64 - 1)) herderWithOneByte)
         = 0
      /\ runningQueryUsed herderWithOneByte + (2 ^ 64 - 1) > memQuota herderWithOneByte
      /\ runningQueryUsed herderWithOneByte + (2 ^ 64 - 1) > appQuota herderWithOneByte
      /\ runningQueryUsed herderWithOneByte + (2 ^ 64 - 1) > indexQuota herderWithOneByte
      /\ runningQueryUsed herderWithOneByte + (2 ^ 64 - 1) > queryQuota herderWithOneByte)
  /\ (forall (size : Z) (a : appHerder),
        is_uint64 (runningQueryUsed a) -> is_uint64 size ->
        runningQueryUsed a < size ->
        runningQueryUsed (stateAfter (EndQuery size) a)
        = runningQueryUsed a - size + uint64_modulus)
  /\ runningQueryUsed (stateAfter (EndQuery 1) scenarioHerder) = 2 ^ 64 - 1.
Proof.
  split.
  { intros w size a Hr Hs Hge Hq Ha.
    assert (Hw : wrap64 (runningQueryUsed a + size)
                 = runningQueryUsed a + size - uint64_modulus).
    { unfold wrap64. unfold is_uint64 in *.
      symmetry. apply Z.mod_unique with (q := 1); lia. }
    unfold stateAfter. rewrite StartQuery_run, Hw.
    apply gtb_false in Hq. apply gtb_false in Ha. rewrite Hq, Ha. simpl.
    split; reflexivity. }
  split; [vm_compute; repeat split; reflexivity|].
  split; [|vm_compute; reflexivity].
  intros size a Hr Hs Hlt. unfold stateAfter. rewrite EndQuery_run. simpl.
  unfold wrap64, is_uint64 in *.
  symmetry. apply Z.mod_unique with (q := -1); lia.
Qed.

(** ** Registration *)

Lemma after_returned (t : list Effect) (o : Outcome) (a : appHerder) (w : World)
    (tr : list Effect) :
  after t o = Returned a w tr -> exists tr', o = Returned a w tr'.
Proof. destruct o; simpl; intros H; [injection H as -> -> _; eauto | discriminate]. Qed.

(** The loop is left only through a test that was false, in the state and
    with the probes' readings of that very test. *)
Lemma waitForMemory_returned (wakes : list Wake) :
  forall (w : World) (a a' : appHerder) (w' : World) (tr : list Effect),
    waitForMemory wakes w a = Returned a' w' tr -> overBudget w' a' = false.
Proof.
  induction wakes as [|k wakes IH]; intros w a a' w' tr; simpl;
    pose proof (overMemQuota_run w a) as Hrun;
    destruct (overMemQuotaForIndexingLOCKED w a) as [[over a1] t1];
    simpl in Hrun; injection Hrun as Hover ->;
    destruct over.
  - destruct (beforeWait a) as [[u a2] t2]. discriminate.
  - intros H. injection H as <- <- _. unfold overBudget.
    rewrite overMemQuota_run. simpl. symmetry. exact Hover.
  - destruct (beforeWait a) as [[u a2] t2].
    destruct (afterWait (others k a2)) as [[u' a3] t3].
    intros H. apply after_returned in H as [tr' H]. eapply IH, H.
  - intros H. injection H as <- <- _. unfold overBudget.
    rewrite overMemQuota_run. simpl. symmetry. exact Hover.
Qed.

(** A writer within budget does not wait. *)
Lemma waitForMemory_within_budget (wakes : list Wake) (w : World) (a : appHerder) :
  overBudget w a = false ->
  waitForMemory wakes w a = Returned a w (overMemQuotaForIndexingLOCKED w a).2.
Proof.
  unfold overBudget. intros H.
  pose proof (overMemQuota_run w a) as Hrun.
  destruct wakes; simpl;
    destruct (overMemQuotaForIndexingLOCKED w a) as [[over a1] t1];
    simpl in *; injection Hrun as _ ->; subst over; reflexivity.
Qed.


Lemma onBatchExecuteStart_inserts (c : handle) (s : sizeFunc) (w : World) (a : appHerder) :
  indexes (herderOf (onBatchExecuteStart c s [] w a)) = <[c := s]> (indexes a).
Proof.
  unfold onBatchExecuteStart. simpl.
  pose proof (overMemQuota_run w (set_indexes (<[c := s]> (indexes a)) a)) as Hrun.
  destruct (overMemQuotaForIndexingLOCKED w _) as [[over a1] t1].
  simpl in Hrun. injection Hrun as _ ->.
  destruct over; reflexivity.
Qed.

(** C3 (as amended).  [onBatchExecuteStart] stores the entry for the
    handle and then runs the wait loop; whatever the other goroutines and
    the engines did at each wake-up, when it returns the combined usage
    test is false on the herder and the probes' readings of that moment:
    the probes' sum taken in [uint64] is at most [indexQuota] and, with
    [runningQueryUsed], at most [appQuota]; where the sums do not wrap, so
    are the mathematical sums. *)
Theorem onBatchExecuteStart_returns_within_budget
    (c : handle) (s : sizeFunc) (wakes : list Wake) (w : World) (a : appHerder)
    (a' : appHerder) (w' : World) (tr : list Effect) :
  onBatchExecuteStart c s wakes w a = Returned a' w' tr ->
  onBatchExecuteStart c s wakes w a
  = waitForMemory wakes w (set_indexes (<[c := s]> (indexes a)) a)
  /\ overBudget w' a' = false
  /\ wrap64 (sumSizeProbe w' a') <= indexQuota a'
  /\ wrap64 (sumSizeProbe w' a' + runningQueryUsed a') <= appQuota a'
  /\ (0 <= sumSizeProbe w' a' -> 0 <= runningQueryUsed a' ->
      sumSizeProbe w' a' + runningQueryUsed a' < uint64_modulus ->
      sumSizeProbe w' a' <= indexQuota a'
      /\ sumSizeProbe w' a' + runningQueryUsed a' <= appQuota a')
  /\ (wakes = [] -> indexes a' = <[c := s]> (indexes a)).
Proof.
  intros Hret. split; [reflexivity|].
  assert (Hok : overBudget w' a' = false).
  { unfold onBatchExecuteStart in Hret. eapply waitForMemory_returned, Hret. }
  assert (Hw : wrap64 (sumSizeProbe w' a') <= indexQuota a'
               /\ wrap64 (sumSizeProbe w' a' + runningQueryUsed a') <= appQuota a').
  { pose proof (overBudget_wrap w' a') as Hiff. rewrite Hok in Hiff.
    split; apply Z.le_ngt; intros Hlt; assert (false = true) as Hf
      by (apply Hiff; lia); discriminate. }
  split; [exact Hok|]. split; [apply Hw|]. split; [apply Hw|]. split.
  - intros H1 H2 H3. rewrite !wrap64_small in Hw by (unfold is_uint64; lia). exact Hw.
  - intros ->. pose proof (onBatchExecuteStart_inserts c s w a) as Hi.
    rewrite Hret in Hi. exact Hi.
Qed.

(** C3, the claim as stated fails where the probes' sum wraps.  Index A
    reports 2^64-100 bytes and its writer is blocked; the writer of index B
    (300 bytes) then returns at once, with the test false on the wrapped
    sum 200, while the sum of the probes is 2^64+200, above [indexQuota]. *)
Lemma onBatchExecuteStart_returns_on_wrapped_sum :
  exists tr,
    onBatchExecuteStart indexB scorchSize [] underflowWorld
      (herderOf (onBatchExecuteStart indexA scorchSize [] underflowWorld scenarioHerder))
    = Returned herderWithUnderflow underflowWorld tr
    /\ overBudget underflowWorld herderWithUnderflow = false
    /\ sumSizeProbe underflowWorld herderWithUnderflow > indexQuota herderWithUnderflow.
Proof.
  exists []. vm_compute. repeat split; reflexivity.
Qed.

(** C3 at scenario 2: index B (200 bytes) registers while A holds 300,
    blocks (500 > 400), and returns at the wake-up that follows the close
    of A, with the test false. *)
Lemma onBatchExecuteStart_returns_within_budget_witness :
  match scenarioTwo with
  | Returned a' w' _ => overBudget w' a' = false
  | Parked _ _ => False
  end.
Proof.
  destruct scenarioTwo as [a' w' tr | a' tr] eqn:E.
  - exact (proj1 (proj2 (onBatchExecuteStart_returns_within_budget
                           indexB scorchSize _ scenarioWorld herderWithA a' w' tr E))).
  - vm_compute in E. discriminate E.
Defined.

(** ** Unregistration *)

Lemma onClose_run (c : handle) (a : appHerder) :
  onClose c a
  = (tt, set_indexes (delete c (indexes a)) a,
     if waiting a >? 0
     then [Log (Printf "app_herder: close progress, waiting: %d" [ArgInt (waiting a)])]
     else []).
Proof. unfold onClose. run_M. destruct (waiting a >? 0); reflexivity. Qed.

Lemma set_indexes_same (a : appHerder) : set_indexes (indexes a) a = a.
Proof. destruct a. reflexivity. Qed.

(** C6.  [onClose(c)] deletes the entry of [c] whatever the state and
    returns nothing; when [c] has no entry the herder is left exactly as it
    was, so closing twice is closing once; when [c] is tracked with probe
    [s], the usage sum loses [s]'s reading for [c]; and right after
    [onBatchExecuteStart(c, s)] stored its entry, [onClose(c)] leaves the
    map as it was before less [c], the sum less the reading of [c]. *)
Theorem onClose_unregisters (c : handle) (w : World) (a : appHerder) :
  stateAfter (onClose c) a = set_indexes (delete c (indexes a)) a
  /\ indexes (stateAfter (onClose c) a) !! c = None
  /\ (indexes a !! c = None -> stateAfter (onClose c) a = a)
  /\ stateAfter (onClose c) (stateAfter (onClose c) a) = stateAfter (onClose c) a
  /\ (forall s : sizeFunc, indexes a !! c = Some s ->
        sumSizeProbe w (stateAfter (onClose c) a) = sumSizeProbe w a - (s w c).1)
  /\ (forall s : sizeFunc,
        let registered := herderOf (onBatchExecuteStart c s [] w a) in
        indexes (stateAfter (onClose c) registered) = delete c (indexes a)
        /\ sumSizeProbe w (stateAfter (onClose c) registered)
           = sumSizeProbe w registered - (s w c).1).
Proof.
  assert (Hst : forall b, stateAfter (onClose c) b = set_indexes (delete c (indexes b)) b).
  { intros b. unfold stateAfter. rewrite onClose_run. reflexivity. }
  assert (Hnone : forall b, indexes b !! c = None -> stateAfter (onClose c) b = b).
  { intros b Hb. rewrite Hst, delete_id by exact Hb. apply set_indexes_same. }
  split; [apply Hst|]. split.
  { rewrite Hst. simpl. apply lookup_delete_eq. }
  split; [apply Hnone|]. split.
  { apply Hnone. rewrite Hst. simpl. apply lookup_delete_eq. }
  split.
  { intros s Hs. rewrite Hst. apply sumSizeProbe_delete, Hs. }
  intros s registered.
  assert (Hreg : indexes registered = <[c := s]> (indexes a))
    by apply onBatchExecuteStart_inserts.
  split.
  - rewrite Hst. simpl. rewrite Hreg. apply delete_insert_eq.
  - rewrite Hst. apply sumSizeProbe_delete. rewrite Hreg. apply lookup_insert_eq.
Qed.

(** C6 at scenario 1: closing index A after it registered brings the
    usage sum from 300 back to 0. *)
Lemma onClose_unregisters_witness :
  sumSizeProbe scenarioWorld (stateAfter (onClose indexA) herderWithA) = 300 - 300.
Proof.
  exact (proj1 (proj2 (proj2 (proj2 (proj2
           (onClose_unregisters indexA scenarioWorld herderWithA))))) scorchSize eq_refl).
Defined.

(** ** Who wakes the waiters *)

Lemma only_logs_app (t1 t2 : list Effect) : only_logs t1 -> only_logs t2 -> only_logs (t1 ++ t2).
Proof. intros H1 H2. apply Forall_app. split; assumption. Qed.

Lemma only_logs_no_broadcast (tr : list Effect) : only_logs tr -> ~ In Broadcast tr.
Proof.
  intros H Hin. unfold only_logs in H. rewrite Forall_forall in H.
  apply list_elem_of_In, H in Hin. destruct Hin as [l Hl]. discriminate.
Qed.

Lemma overMemQuota_only_logs (w : World) (a : appHerder) :
  only_logs (overMemQuotaForIndexingLOCKED w a).2.
Proof.
  unfold overMemQuotaForIndexingLOCKED. run_M.
  pose proof (indexingMemoryLOCKED_trace w a) as Ht.
  pose proof (indexingMemoryLOCKED_value w a) as Hv.
  destruct (indexingMemoryLOCKED w a) as [[v a1] t]. simpl in *. injection Hv as -> ->.
  destruct (wrap64 (sumSizeProbe w a) >? indexQuota a); simpl.
  - apply only_logs_app; [exact Ht|]. repeat constructor. eauto.
  - destruct (_ >? appQuota a); simpl; apply only_logs_app; try exact Ht;
      repeat constructor; eauto.
Qed.

Lemma StartQuery_only_logs (w : World) (size : Z) (a : appHerder) :
  only_logs (StartQuery w size a).2.
Proof.
  unfold StartQuery. run_M.
  destruct (wrap64 (runningQueryUsed a + size) >? queryQuota a); [constructor|].
  pose proof (indexingMemoryLOCKED_trace w a) as Ht.
  destruct (indexingMemoryLOCKED w a) as [[v a1] t]. simpl in *.
  destruct (_ >? appQuota a); simpl; rewrite app_nil_r; exact Ht.
Qed.

Lemma after_no_broadcast (t : list Effect) (o : Outcome) :
  ~ In Broadcast t -> ~ In Broadcast (traceOf o) -> ~ In Broadcast (traceOf (after t o)).
Proof.
  intros H1 H2. destruct o; simpl in *; rewrite in_app_iff; tauto.
Qed.

(** A writer's own steps never broadcast, however often it wakes up. *)
Lemma waitForMemory_no_broadcast (wakes : list Wake) :
  forall (w : World) (a : appHerder), ~ In Broadcast (traceOf (waitForMemory wakes w a)).
Proof.
  induction wakes as [|k wakes IH]; intros w a; cbn [waitForMemory];
    pose proof (only_logs_no_broadcast _ (overMemQuota_only_logs w a)) as Ht;
    destruct (overMemQuotaForIndexingLOCKED w a) as [[over a1] t1];
    cbn [snd] in Ht; destruct over; try exact Ht.
  - unfold beforeWait. run_M. rewrite in_app_iff. simpl.
    intros [H|[H|[H|[]]]]; [tauto | discriminate | discriminate].
  - unfold beforeWait, afterWait. run_M.
    apply after_no_broadcast; [|apply IH].
    rewrite in_app_iff. simpl. intros [H|[H|[H|[H|[]]]]]; [tauto | discriminate..].
Qed.

(** C9.  [onClose] does not wake the waiters: it performs neither
    [Broadcast] nor [Wait], and of the herder's fields it changes only the
    map of tracked indexes (the waiting count, [runningQueryUsed] and the
    four quotas are as before).  [onPersisterProgress] and [EndQuery] do
    broadcast; [StartQuery] and a writer in [onBatchExecuteStart] do not. *)
Theorem onClose_wakes_nobody (c : handle) (a : appHerder) :
  ~ In Broadcast (onClose c a).2
  /\ ~ In Wait (onClose c a).2
  /\ indexes (stateAfter (onClose c) a) = delete c (indexes a)
  /\ waiting (stateAfter (onClose c) a) = waiting a
  /\ runningQueryUsed (stateAfter (onClose c) a) = runningQueryUsed a
  /\ quotas (stateAfter (onClose c) a) = quotas a
  /\ In Broadcast (onPersisterProgress a).2
  /\ (forall size : Z, In Broadcast (EndQuery size a).2)
  /\ (forall (w : World) (size : Z), ~ In Broadcast (StartQuery w size a).2)
  /\ (forall (s : sizeFunc) (wakes : list Wake) (w : World),
        ~ In Broadcast (traceOf (onBatchExecuteStart c s wakes w a))).
Proof.
  unfold stateAfter. rewrite onClose_run. simpl.
  split. { destruct (waiting a >? 0); simpl; intros H; [destruct H as [H|[]]; discriminate | exact H]. }
  split. { destruct (waiting a >? 0); simpl; intros H; [destruct H as [H|[]]; discriminate | exact H]. }
  do 4 (split; [reflexivity|]).
  split. { unfold onPersisterProgress. run_M. destruct (waiting a >? 0); simpl; tauto. }
  split. { intros size. unfold EndQuery. run_M. destruct (waiting a >? 0); simpl; tauto. }
  split. { intros w size. apply only_logs_no_broadcast, StartQuery_only_logs. }
  intros s wakes w. apply waitForMemory_no_broadcast.
Qed.

(** ** The engine event adapter *)

(** C8.  A moss event whose collection has no [LowerLevelUpdate] option is
    ignored whatever its kind: [onMossEvent] returns at once, the herder is
    as it was (no index registered, nothing removed) and there is no effect
    at all (no broadcast, no wait, no log line).  The same holds for an
    event of a kind other than close, batch start and persister progress,
    from moss and from scorch. *)
Theorem events_ignored (wakes : list Wake) (w : World) (a : appHerder) :
  (forall event : moss.Event,
     moss.LowerLevelUpdate (Options w (moss.Collection event)) = None ->
     onMossEvent event wakes w a = Returned a w [])
  /\ (forall (code : Z) (c : handle),
        onMossEvent {| moss.Kind := moss.EventKindOther code; moss.Collection := c |}
          wakes w a = Returned a w [])
  /\ (forall (code : Z) (s : handle),
        onScorchEvent {| scorch.Kind := scorch.EventKindOther code; scorch.Scorch := s |}
          wakes w a = Returned a w []).
Proof.
  split; [|split].
  - intros event H. unfold onMossEvent. rewrite H. reflexivity.
  - intros code c. unfold onMossEvent. simpl.
    destruct (moss.LowerLevelUpdate (Options w c)); reflexivity.
  - intros code s. reflexivity.
Qed.

(** C8 at scenario 1: collection C did not opt in, and its batch-start
    event registers nothing. *)
Lemma events_ignored_witness :
  onMossEvent {| moss.Kind := moss.EventKindBatchExecuteStart; moss.Collection := indexC |}
    [] scenarioWorld herderWithA
  = Returned herderWithA scenarioWorld [].
Proof.
  exact (proj1 (events_ignored [] scenarioWorld herderWithA)
           {| moss.Kind := moss.EventKindBatchExecuteStart; moss.Collection := indexC |}
           eq_refl).
Defined.

(** ** Probe failures *)

(** Every line a tracked probe logs is among the effects of the sum. *)
Lemma indexingMemoryLOCKED_logs (w : World) (a : appHerder) (c : handle) (s : sizeFunc)
    (l : LogLine) :
  indexes a !! c = Some s -> In l (s w c).2 -> In (Log l) (indexingMemoryLOCKED w a).2.
Proof.
  intros Hc Hl. unfold indexingMemoryLOCKED. rewrite map_fold_foldr.
  apply elem_of_map_to_list, list_elem_of_In in Hc.
  induction (map_to_list (indexes a)) as [|[i s'] ls IH]; simpl in *; [contradiction|].
  destruct (foldr _ _ ls) as [rv tr]. simpl in IH.
  destruct (s' w i) as [n t] eqn:E. simpl. apply in_app_iff.
  destruct Hc as [Heq|Hin].
  - injection Heq as -> ->. right. apply in_map. rewrite E in Hl. exact Hl.
  - left. apply IH, Hin.
Qed.

(** The only errors of [StartQuery] are its two quota errors. *)
Lemma StartQuery_errors (w : World) (size : Z) (a : appHerder) :
  (StartQuery w size a).1.1 = None
  \/ (StartQuery w size a).1.1
     = Some (errQueryQuota size (runningQueryUsed a) (queryQuota a))
  \/ (StartQuery w size a).1.1
     = Some (errAppQuota size (runningQueryUsed a) (wrap64 (sumSizeProbe w a)) (appQuota a)).
Proof.
  rewrite StartQuery_run.
  destruct (_ >? queryQuota a); [auto|]. destruct (_ >? appQuota a); auto.
Qed.

(** C7.  When the statistics of a moss collection cannot be read,
    [mossSize] returns 0 and logs a warning with the error.  For a herder
    that tracks the collection with this probe: the usage sum is the sum
    without the collection; the warning is among the effects of computing
    the sum; the usage test and [StartQuery] decide, and leave the herder,
    exactly as if the collection were not tracked; and the only errors
    [StartQuery] returns are its two quota errors (the other operations
    return no error at all). *)
Theorem mossSize_failure_is_zero (w : World) (c : handle) (msg : string) :
  Stats w c = inr msg ->
  mossSize w c = (0, [mossStatsWarning msg])
  /\ (forall a : appHerder, indexes a !! c = Some mossSize ->
        let untracked := set_indexes (delete c (indexes a)) a in
        sumSizeProbe w a = sumSizeProbe w untracked
        /\ In (Log (mossStatsWarning msg)) (indexingMemoryLOCKED w a).2
        /\ overBudget w a = overBudget w untracked
        /\ (forall size : Z,
              (StartQuery w size a).1.1 = (StartQuery w size untracked).1.1
              /\ runningQueryUsed (stateAfter (StartQuery w size) a)
                 = runningQueryUsed (stateAfter (StartQuery w size) untracked)
              /\ indexes (stateAfter (StartQuery w size) a) = indexes a))
  /\ (forall (a : appHerder) (size : Z),
        (StartQuery w size a).1.1 = None
        \/ (StartQuery w size a).1.1
           = Some (errQueryQuota size (runningQueryUsed a) (queryQuota a))
        \/ (StartQuery w size a).1.1
           = Some (errAppQuota size (runningQueryUsed a) (wrap64 (sumSizeProbe w a))
                     (appQuota a))).
Proof.
  intros Herr.
  assert (Hm : mossSize w c = (0, [mossStatsWarning msg])).
  { unfold mossSize. rewrite Herr. reflexivity. }
  split; [exact Hm|]. split; [|intros a size; apply StartQuery_errors].
  intros a Hc untracked.
  assert (Hsum : sumSizeProbe w a = sumSizeProbe w untracked).
  { unfold untracked. rewrite (sumSizeProbe_delete w a c mossSize Hc), Hm. simpl. lia. }
  split; [exact Hsum|]. split.
  { apply (indexingMemoryLOCKED_logs w a c mossSize); [exact Hc|]. rewrite Hm. simpl. auto. }
  split.
  { unfold overBudget. rewrite !overMemQuota_run, Hsum. reflexivity. }
  intros size. unfold stateAfter. rewrite !StartQuery_run, Hsum.
  change (runningQueryUsed untracked) with (runningQueryUsed a).
  change (queryQuota untracked) with (queryQuota a).
  change (appQuota untracked) with (appQuota a).
  destruct (_ >? queryQuota a); [repeat split; reflexivity|].
  destruct (_ >? appQuota a); repeat split; reflexivity.
Qed.

(** C7 at scenario 1: the statistics of collection C cannot be read, and
    its probe answers 0 with a warning. *)
Lemma mossSize_failure_is_zero_witness :
  mossSize scenarioWorld indexC = (0, [mossStatsWarning "collection closed"]).
Proof.
  exact (proj1 (mossSize_failure_is_zero scenarioWorld indexC "collection closed" eq_refl)).
Defined.

(** ** Rounding in float64

    How far [uint64(float64(total) * ratio)] is from the exact product:
    the Standard Library's [binary_round_aux] followed step by step. *)

Lemma digits2_pos_size (p : positive) : digits2_pos p = Pos.size p.
Proof. induction p; simpl; congruence. Qed.

Lemma digits2_pos_bounds (p : positive) :
  2 ^ (Z.pos (digits2_pos p) - 1) <= Z.pos p < 2 ^ Z.pos (digits2_pos p).
Proof.
  rewrite digits2_pos_size.
  pose proof (Pos.size_gt p) as Hgt. pose proof (Pos.size_le p) as Hle.
  apply Pos2Z.pos_lt_pos in Hgt. apply Pos2Z.pos_le_pos in Hle.
  rewrite Pos2Z.inj_pow in Hgt, Hle.
  split; [|exact Hgt].
  replace (Z.pos (Pos.size p)) with (Z.succ (Z.pos (Pos.size p) - 1)) in Hle by lia.
  rewrite Z.pow_succ_r in Hle; [|clear; lia].
  lia.
Qed.

Lemma shr_1_m (mrs : shr_record) : 0 <= shr_m mrs -> shr_m (shr_1 mrs) = shr_m mrs / 2.
Proof.
  destruct mrs as [m r s]. cbn [shr_m]. intros Hm. rewrite <- Z.div2_div.
  destruct m as [|[p|p|]|p]; try reflexivity. lia.
Qed.

Lemma shr_1_exact (mrs : shr_record) :
  0 <= shr_m mrs -> exactR mrs -> shr_m mrs mod 2 = 0 -> exactR (shr_1 mrs).
Proof.
  destruct mrs as [m r s]. unfold exactR. cbn [shr_m shr_r shr_s].
  intros Hm [-> ->] Hmod. rewrite Zmod_even in Hmod.
  destruct m as [|[p|p|]|p]; try (split; reflexivity); try discriminate Hmod. lia.
Qed.

Lemma iter_pos_shr_m (p : positive) :
  forall mrs, 0 <= shr_m mrs ->
    shr_m (SpecFloat.iter_pos shr_1 p mrs) = shr_m mrs / 2 ^ Z.pos p.
Proof.
  assert (Hnn : forall mrs, 0 <= shr_m mrs -> 0 <= shr_m (shr_1 mrs)).
  { intros mrs H. rewrite shr_1_m by exact H. apply Z.div_pos; lia. }
  induction p as [p IH|p IH|]; intros mrs Hm; simpl.
  - rewrite IH, IH, shr_1_m; try assumption.
    + rewrite !Z.div_div by lia. f_equal.
      rewrite Pos2Z.inj_xI. rewrite <- !Z.pow_add_r by lia.
      rewrite <- (Z.pow_1_r 2) at 1. rewrite <- Z.pow_add_r by lia. f_equal. lia.
    + auto.
    + rewrite IH by auto. apply Z.div_pos; [auto | lia].
  - rewrite IH, IH; try assumption.
    + rewrite !Z.div_div by lia. f_equal.
      rewrite Pos2Z.inj_xO. rewrite <- !Z.pow_add_r by lia. f_equal. lia.
    + rewrite IH by auto. apply Z.div_pos; [auto | lia].
  - rewrite shr_1_m by assumption. reflexivity.
Qed.

Lemma mod_pow_split (a n k : Z) :
  0 <= n -> 0 <= k -> a mod 2 ^ (n + k) = 0 ->
  a mod 2 ^ n = 0 /\ (a / 2 ^ n) mod 2 ^ k = 0.
Proof.
  intros Hn Hk H.
  assert (Hpn : 0 < 2 ^ n) by (apply Z.pow_pos_nonneg; lia).
  assert (Hpk : 0 < 2 ^ k) by (apply Z.pow_pos_nonneg; lia).
  apply Z.mod_divide in H; [|rewrite Z.pow_add_r by lia; lia].
  destruct H as [q Hq]. rewrite Z.pow_add_r in Hq by lia.
  assert (Ha : a = (q * 2 ^ k) * 2 ^ n) by lia.
  split.
  - rewrite Ha. apply Z.mod_mul. lia.
  - rewrite Ha, Z.div_mul by lia. apply Z.mod_mul. lia.
Qed.

Lemma iter_pos_exact (p : positive) :
  forall mrs, 0 <= shr_m mrs -> exactR mrs -> shr_m mrs mod 2 ^ Z.pos p = 0 ->
    exactR (SpecFloat.iter_pos shr_1 p mrs).
Proof.
  assert (Hnn : forall mrs, 0 <= shr_m mrs -> 0 <= shr_m (shr_1 mrs)).
  { intros mrs H. rewrite shr_1_m by exact H. apply Z.div_pos; lia. }
  assert (Hnn' : forall q mrs, 0 <= shr_m mrs -> 0 <= shr_m (SpecFloat.iter_pos shr_1 q mrs)).
  { intros q mrs H. rewrite iter_pos_shr_m by exact H.
    apply Z.div_pos; [exact H | apply Z.pow_pos_nonneg; lia]. }
  induction p as [p IH|p IH|]; intros mrs Hm Hex Hmod; simpl.
  - rewrite (Pos2Z.inj_xI p) in Hmod.
    replace (2 * Z.pos p + 1) with (1 + (Z.pos p + Z.pos p)) in Hmod by lia.
    apply mod_pow_split in Hmod as [H1 H2]; try lia.
    apply mod_pow_split in H2 as [H2 H3]; try lia.
    rewrite Z.pow_1_r in H1, H2, H3.
    apply IH; [auto | apply IH; auto |].
    + apply shr_1_exact; assumption.
    + rewrite shr_1_m by assumption. exact H2.
    + rewrite iter_pos_shr_m, shr_1_m by auto. exact H3.
  - rewrite (Pos2Z.inj_xO p) in Hmod.
    replace (2 * Z.pos p) with (Z.pos p + Z.pos p) in Hmod by lia.
    apply mod_pow_split in Hmod as [H1 H2]; try lia.
    apply IH; [auto | apply IH; auto |].
    rewrite iter_pos_shr_m by auto. exact H2.
  - apply shr_1_exact; assumption.
Qed.

Lemma round_nearest_even_bounds (mrs : shr_record) :
  shr_m mrs <= round_nearest_even (shr_m mrs) (loc_of_shr_record mrs) <= shr_m mrs + 1
  /\ (exactR mrs -> round_nearest_even (shr_m mrs) (loc_of_shr_record mrs) = shr_m mrs).
Proof.
  destruct mrs as [m [|] [|]]; unfold exactR; simpl; repeat split;
    try lia; try (intros [? ?]; discriminate);
    destruct (Z.even m); lia.
Qed.

Lemma shiftl_neg (a s : Z) : 0 <= s -> Z.shiftl a (- s) = a / 2 ^ s.
Proof.
  intros Hs. rewrite <- Z.shiftr_div_pow2 by exact Hs. reflexivity.
Qed.

Lemma floor_le_ceil_div (a b : Z) : 0 < b -> a / b <= - ((- a) / b).
Proof.
  intros Hb. destruct (Z.eq_dec (a mod b) 0) as [H|H].
  - rewrite Z.div_opp_l_z by lia. lia.
  - rewrite Z.div_opp_l_nz by lia. lia.
Qed.

Lemma floor_le_ceil (a e : Z) : Z.shiftl a e <= - Z.shiftl (- a) e.
Proof.
  destruct (Z.le_gt_cases 0 e) as [He|He].
  - rewrite !Z.shiftl_mul_pow2 by exact He. lia.
  - replace e with (- (- e)) by lia. rewrite !shiftl_neg by lia.
    apply floor_le_ceil_div, Z.pow_pos_nonneg; lia.
Qed.

Lemma fexp64 (k : Z) : fexp 53 1024 k = Z.max (k - 53) (-1074).
Proof. reflexivity. Qed.

Lemma shr_fexp_noshift (m e : Z) (l : location) :
  fexp 53 1024 (Zdigits2 m + e) <= e ->
  shr_fexp 53 1024 m e l = (shr_record_of_loc m l, e).
Proof.
  intros H. unfold shr_fexp, shr.
  destruct (fexp 53 1024 (Zdigits2 m + e) - e) eqn:En; try reflexivity. lia.
Qed.

Lemma shr_fexp_shift (m e : Z) (l : location) :
  e < fexp 53 1024 (Zdigits2 m + e) ->
  shr_fexp 53 1024 m e l
  = (SpecFloat.iter_pos shr_1 (Z.to_pos (fexp 53 1024 (Zdigits2 m + e) - e))
       (shr_record_of_loc m l),
     fexp 53 1024 (Zdigits2 m + e)).
Proof.
  intros H. unfold shr_fexp, shr.
  destruct (fexp 53 1024 (Zdigits2 m + e) - e) eqn:En; try lia.
  simpl. f_equal. lia.
Qed.

Lemma Zdigits2_bounds (m : Z) : 0 < m -> 2 ^ (Zdigits2 m - 1) <= m < 2 ^ Zdigits2 m.
Proof. destruct m; try lia. intros _. apply digits2_pos_bounds. Qed.

(** The second normalisation of [binary_round_aux] keeps the value. *)
Lemma second_shr (m2 e1 : Z) :
  0 <= m2 <= 2 ^ 53 -> -1074 <= e1 <= 0 ->
  0 <= shr_m (shr_fexp 53 1024 m2 e1 loc_Exact).1
  /\ (shr_fexp 53 1024 m2 e1 loc_Exact).2 <= 1
  /\ Z.shiftl (shr_m (shr_fexp 53 1024 m2 e1 loc_Exact).1)
       (shr_fexp 53 1024 m2 e1 loc_Exact).2 = Z.shiftl m2 e1.
Proof.
  intros Hm He.
  destruct (Z.eq_dec m2 (2 ^ 53)) as [->|Hne].
  - rewrite shr_fexp_shift; rewrite fexp64; change (Zdigits2 (2 ^ 53)) with 54; [|lia].
    replace (Z.max (54 + e1 - 53) (-1074)) with (e1 + 1) by lia.
    replace (e1 + 1 - e1) with 1 by lia. cbn [Z.to_pos SpecFloat.iter_pos fst snd].
    change (shr_m (shr_1 (shr_record_of_loc (2 ^ 53) loc_Exact))) with (2 ^ 52).
    split; [lia|]. split; [lia|].
    destruct (Z.eq_dec e1 0) as [->|Hz]; [reflexivity|].
    replace (e1 + 1) with (- (- e1 - 1)) by lia.
    replace e1 with (- (- e1)) at 2 by lia.
    rewrite !shiftl_neg by lia.
    replace (- e1) with (1 + (- e1 - 1)) at 2 by lia.
    rewrite Z.pow_add_r, <- Z.div_div by lia. reflexivity.
  - rewrite shr_fexp_noshift.
    + simpl. split; [lia|]. split; [lia|reflexivity].
    + rewrite fexp64. destruct (Z.eq_dec m2 0) as [->|Hz]; [simpl; lia|].
      pose proof (Zdigits2_bounds m2 ltac:(lia)) as [Hlo _].
      assert (Zdigits2 m2 - 1 < 53); [|lia].
      apply (Z.pow_lt_mono_r_iff 2); lia.
Qed.

Lemma shiftl_bound (m d e : Z) :
  0 <= m < 2 ^ d -> 0 <= d -> d + e <= 53 -> Z.shiftl m e < 2 ^ 53.
Proof.
  intros Hm Hd Hk.
  destruct (Z.le_gt_cases 0 e) as [He|He].
  - rewrite Z.shiftl_mul_pow2 by exact He.
    apply Z.lt_le_trans with (2 ^ d * 2 ^ e).
    + apply Z.mul_lt_mono_pos_r; [apply Z.pow_pos_nonneg; lia | lia].
    + rewrite <- Z.pow_add_r by lia. apply Z.pow_le_mono_r; lia.
  - replace e with (- (- e)) by lia. rewrite shiftl_neg by lia.
    apply Z.div_lt_upper_bound; [apply Z.pow_pos_nonneg; lia|].
    rewrite <- Z.pow_add_r by lia.
    apply Z.lt_le_trans with (2 ^ d); [lia|]. apply Z.pow_le_mono_r; lia.
Qed.

(** What [uint64(f)] is for the float [binary_round_aux] assembles. *)
Lemma uint64_of_assembled (u : float64 -> Z) (m e : Z) :
  0 <= m -> e <= 971 -> Z.shiftl m e < uint64_modulus ->
  uint64_of_float64 u
    (match m with
     | Z0 => S754_zero false
     | Z.pos p => if e <=? 1024 - 53 then S754_finite false p e else S754_infinity false
     | Z.neg _ => S754_nan
     end) = Z.shiftl m e.
Proof.
  intros Hm He Hlt. destruct m as [|p|p]; [|clear Hm|lia].
  - rewrite Z.shiftl_0_l. reflexivity.
  - replace (e <=? 1024 - 53) with true by (symmetry; apply Z.leb_le; lia).
    simpl. apply Z.ltb_lt in Hlt. rewrite Hlt. reflexivity.
Qed.

(** Rounding a positive number below 2^53 to float64 and truncating the
    result gives the number's floor or its ceiling. *)
Lemma round_then_truncate (u : float64 -> Z) (mM : positive) (E : Z) :
  Z.pos (digits2_pos mM) + E <= 53 ->
  Z.shiftl (Z.pos mM) E
  <= uint64_of_float64 u (binary_round_aux 53 1024 false (Z.pos mM) E loc_Exact)
  <= - Z.shiftl (- Z.pos mM) E.
Proof.
  intros Hk.
  pose proof (digits2_pos_bounds mM) as Hd.
  set (M := Z.pos mM) in *. set (d := Z.pos (digits2_pos mM)) in *.
  assert (Hd0 : 0 < d) by (unfold d; lia).
  assert (HdM : Zdigits2 M = d) by reflexivity.
  unfold binary_round_aux.
  destruct (Z.le_gt_cases (fexp 53 1024 (Zdigits2 M + E)) E) as [Hns|Hsh].
  - (* the product is a float64 already *)
    rewrite (shr_fexp_noshift M E loc_Exact Hns). cbn [shr_record_of_loc shr_m
      loc_of_shr_record round_nearest_even fst snd].
    rewrite (shr_fexp_noshift M E loc_Exact Hns). cbn [shr_record_of_loc shr_m fst snd].
    rewrite HdM, fexp64 in Hns.
    pose proof (shiftl_bound M d E ltac:(lia) ltac:(lia) Hk) as Hb.
    rewrite uint64_of_assembled; [|lia|lia|unfold uint64_modulus; lia].
    split; [lia | apply floor_le_ceil].
  - (* the low bits of the product are rounded away *)
    rewrite (shr_fexp_shift M E loc_Exact Hsh). cbn [fst snd].
    rewrite HdM in Hsh |- *.
    set (e1 := fexp 53 1024 (d + E)) in *.
    assert (He1 : -1074 <= e1 <= 0 /\ d + E - 53 <= e1) by (unfold e1; rewrite fexp64; lia).
    set (n := e1 - E) in *.
    assert (Hn : 0 < n) by (unfold n; lia).
    set (mrs1 := SpecFloat.iter_pos shr_1 (Z.to_pos n) (shr_record_of_loc M loc_Exact)).
    assert (Hm1 : shr_m mrs1 = M / 2 ^ n).
    { unfold mrs1. rewrite iter_pos_shr_m by (simpl; lia).
      rewrite Z2Pos.id by lia. reflexivity. }
    pose proof (round_nearest_even_bounds mrs1) as [Hr Hrex].
    set (m2 := round_nearest_even (shr_m mrs1) (loc_of_shr_record mrs1)) in *.
    assert (Hpn : 0 < 2 ^ n) by (apply Z.pow_pos_nonneg; lia).
    assert (Hm1b : 0 <= M / 2 ^ n < 2 ^ 53).
    { split; [apply Z.div_pos; lia|].
      apply Z.div_lt_upper_bound; [lia|]. rewrite <- Z.pow_add_r by lia.
      apply Z.lt_le_trans with (2 ^ d); [lia|]. apply Z.pow_le_mono_r; lia. }
    pose proof (second_shr m2 e1 ltac:(lia) ltac:(lia)) as (H3a & H3b & H3c).
    destruct (shr_fexp 53 1024 m2 e1 loc_Exact) as [mrs3 e3]. cbn [fst snd] in *.
    set (s := - e1).
    assert (HT : Z.shiftl m2 e1 = m2 / 2 ^ s).
    { unfold s. replace e1 with (- (- e1)) at 1 by lia. apply shiftl_neg. lia. }
    assert (Hps : 0 < 2 ^ s) by (apply Z.pow_pos_nonneg; unfold s; lia).
    assert (HTb : m2 / 2 ^ s <= 2 ^ 53).
    { apply Z.le_trans with m2; [|lia]. apply Z.div_le_upper_bound; [lia|]. nia. }
    rewrite uint64_of_assembled; [|exact H3a|lia|rewrite H3c, HT; unfold uint64_modulus; lia].
    rewrite H3c, HT.
    assert (HE : E = - (n + s)) by (unfold n, s; lia).
    rewrite HE, !shiftl_neg by (unfold s; lia).
    rewrite Z.pow_add_r by (unfold s; lia).
    split.
    + rewrite <- Z.div_div by lia. apply Z.div_le_mono; lia.
    + (* m2 / 2^s <= ceil (M / (2^n * 2^s)) *)
      set (q := m2 / 2 ^ s).
      assert (Hq : q * 2 ^ s <= m2) by (unfold q; rewrite Z.mul_comm; apply Z.mul_div_le; lia).
      assert (HM : M / 2 ^ n * 2 ^ n <= M) by (rewrite Z.mul_comm; apply Z.mul_div_le; lia).
      assert (Hstrict : (q - 1) * (2 ^ n * 2 ^ s) < M).
      { destruct (Z.eq_dec (M mod 2 ^ n) 0) as [Hex|Hin].
        - assert (Hm2 : m2 = M / 2 ^ n).
          { rewrite <- Hm1. apply Hrex.
            unfold mrs1. apply iter_pos_exact; [simpl; lia | split; reflexivity |].
            rewrite Z2Pos.id by lia. exact Hex. }
          nia.
        - assert (M / 2 ^ n * 2 ^ n < M).
          { pose proof (Z.div_mod M (2 ^ n) ltac:(lia)).
            pose proof (Z.mod_pos_bound M (2 ^ n) ltac:(lia)). lia. }
          nia. }
      assert ((- M) / (2 ^ n * 2 ^ s) < - q + 1); [|lia].
      apply Z.div_lt_upper_bound; [nia|]. nia.
Qed.

Lemma Pos_iter_xO (p j : positive) :
  Z.pos (Pos.iter xO p j) = Z.pos p * 2 ^ Z.pos j
  /\ Z.pos (digits2_pos (Pos.iter xO p j)) = Z.pos (digits2_pos p) + Z.pos j.
Proof.
  induction j as [|j IH] using Pos.peano_ind.
  - simpl. rewrite Z.pow_1_r. lia.
  - rewrite Pos.iter_succ. destruct IH as [IH1 IH2]. cbn [digits2_pos].
    rewrite (Pos2Z.inj_xO (Pos.iter xO p j)), !Pos2Z.inj_succ, IH1, IH2.
    rewrite Z.pow_succ_r by lia. lia.
Qed.

(** A float64 that needs no rounding is assembled as it is. *)
Lemma binary_round_aux_exact (mz : positive) (ez : Z) :
  fexp 53 1024 (Z.pos (digits2_pos mz) + ez) <= ez -> ez <= 971 ->
  binary_round_aux 53 1024 false (Z.pos mz) ez loc_Exact = S754_finite false mz ez.
Proof.
  intros Hns He. unfold binary_round_aux.
  rewrite (shr_fexp_noshift (Z.pos mz) ez loc_Exact Hns).
  cbn [shr_record_of_loc shr_m loc_of_shr_record round_nearest_even].
  rewrite (shr_fexp_noshift (Z.pos mz) ez loc_Exact Hns). cbn [shr_record_of_loc shr_m].
  replace (ez <=? 1024 - 53) with true by (symmetry; apply Z.leb_le; lia). reflexivity.
Qed.

(** [float64(total)] is exact below 2^53. *)
Lemma float64_of_uint64_exact (total : Z) :
  0 < total < 2 ^ 53 ->
  exists (mz : positive) (j : Z),
    float64_of_uint64 total = S754_finite false mz (- j)
    /\ 0 <= j /\ Z.pos mz = total * 2 ^ j.
Proof.
  intros [Hpos Hlt]. destruct total as [|p|p]; try lia. clear Hpos.
  pose proof (digits2_pos_bounds p) as [Hlo _].
  set (d := Z.pos (digits2_pos p)) in *.
  assert (Hd : 0 < d <= 53).
  { split; [unfold d; lia|]. assert (d - 1 < 53); [|lia].
    apply (Z.pow_lt_mono_r_iff 2); lia. }
  unfold float64_of_uint64, binary_normalize, binary_round.
  fold d. rewrite fexp64.
  replace (Z.max (d + 0 - 53) (-1074)) with (d - 53) by lia.
  unfold shl_align. destruct (d - 53 - 0) as [|q|q] eqn:Eq; try lia.
  - exists p, 0. replace (- 0) with 0 by lia. rewrite Z.pow_0_r, Z.mul_1_r.
    split; [|lia]. apply binary_round_aux_exact; [|lia].
    fold d. rewrite fexp64. lia.
  - destruct (Pos_iter_xO p q) as [Hv Hdig].
    exists (Pos.iter xO p q), (Z.pos q).
    replace (d - 53) with (- Z.pos q) by lia.
    split; [|split; [lia | exact Hv]].
    apply binary_round_aux_exact; [|lia].
    rewrite Hdig. fold d. rewrite fexp64. lia.
Qed.

Lemma shiftl_scale (a j e : Z) : 0 <= j -> Z.shiftl (a * 2 ^ j) (e - j) = Z.shiftl a e.
Proof.
  intros Hj. rewrite <- Z.shiftl_mul_pow2 by exact Hj.
  rewrite Z.shiftl_shiftl by exact Hj. f_equal. lia.
Qed.

Lemma digits_of_small (m e : Z) :
  0 < m -> Z.shiftl m e < 2 ^ 53 -> Zdigits2 m + e <= 53.
Proof.
  intros Hm Hlt. pose proof (Zdigits2_bounds m Hm) as [Hlo _].
  assert (Hd : 0 < Zdigits2 m) by (destruct m; simpl; lia).
  destruct (Z.le_gt_cases 0 e) as [He|He].
  - rewrite Z.shiftl_mul_pow2 in Hlt by exact He.
    assert (2 ^ (Zdigits2 m - 1 + e) < 2 ^ 53).
    { rewrite Z.pow_add_r by lia.
      apply Z.le_lt_trans with (m * 2 ^ e); [|exact Hlt].
      apply Z.mul_le_mono_nonneg_r; [apply Z.pow_nonneg; lia | exact Hlo]. }
    assert (Zdigits2 m - 1 + e < 53); [|lia].
    apply (Z.pow_lt_mono_r_iff 2); lia.
  - replace e with (- (- e)) in Hlt by lia. rewrite shiftl_neg in Hlt by lia.
    assert (Hp : 0 < 2 ^ (- e)) by (apply Z.pow_pos_nonneg; lia).
    assert (m < 2 ^ (- e) * 2 ^ 53).
    { pose proof (Z.mul_succ_div_gt m (2 ^ (- e)) Hp). nia. }
    rewrite <- Z.pow_add_r in H by lia.
    assert (Zdigits2 m - 1 < - e + 53); [|lia].
    apply (Z.pow_lt_mono_r_iff 2); lia.
Qed.

(** [uint64(f)] is a [uint64], whatever the float. *)
Lemma uint64_of_float64_range (u : float64 -> Z) (f : float64) :
  is_uint64 (uint64_of_float64 u f).
Proof.
  unfold uint64_of_float64.
  destruct f as [s|s| |s m e]; try apply wrap64_range.
  - split; [lia | apply uint64_modulus_pos].
  - destruct s.
    + destruct (Z.shiftl (Z.pos m) e =? 0); [|apply wrap64_range].
      split; [lia | apply uint64_modulus_pos].
    + destruct (Z.shiftl (Z.pos m) e <? uint64_modulus) eqn:E; [|apply wrap64_range].
      apply Z.ltb_lt in E. split; [apply Z.shiftl_nonneg; lia | exact E].
Qed.

Lemma quota_within_truncation (u : float64 -> Z) (total : Z) (ratio : float64) :
  0 <= total < 2 ^ 53 -> nonnegative ratio -> productFloor total ratio < 2 ^ 53 ->
  productFloor total ratio
  <= uint64_of_float64 u (float64_mul (float64_of_uint64 total) ratio)
  <= productCeil total ratio.
Proof.
  intros Ht Hr Hp.
  destruct (Z.eq_dec total 0) as [->|Hnz].
  - destruct ratio as [s| | |[|] my ey]; try contradiction; simpl.
    + lia.
    + rewrite !Z.shiftl_0_l. lia.
  - destruct (float64_of_uint64_exact total ltac:(lia)) as (mz & j & Hf & Hj & Hmz).
    rewrite Hf.
    destruct ratio as [s| | |[|] my ey]; try contradiction; [simpl; lia|].
    cbn [productFloor productCeil] in *.
    unfold float64_mul, SFmul. cbn [xorb].
    assert (Hfl : forall a, Z.shiftl (a * 2 ^ j) (- j + ey) = Z.shiftl a ey).
    { intros a. replace (- j + ey) with (ey - j) by lia. apply shiftl_scale, Hj. }
    assert (HM : Z.pos (mz * my) = total * Z.pos my * 2 ^ j).
    { rewrite Pos2Z.inj_mul, Hmz. lia. }
    pose proof (round_then_truncate u (mz * my) (- j + ey)) as Hround.
    rewrite HM in Hround.
    replace (- (total * Z.pos my * 2 ^ j)) with (- (total * Z.pos my) * 2 ^ j) in Hround by lia.
    rewrite !Hfl in Hround. rewrite HM. apply Hround.
    change (Z.pos (digits2_pos (mz * my))) with (Zdigits2 (Z.pos (mz * my))).
    apply digits_of_small; [lia|]. rewrite HM, Hfl. exact Hp.
Qed.

(** ** The quotas are fixed at construction *)

Lemma overMemQuota_state (w : World) (a : appHerder) :
  (overMemQuotaForIndexingLOCKED w a).1.2 = a.
Proof. rewrite overMemQuota_run. reflexivity. Qed.

(** A writer leaves the quotas alone if the goroutines that ran while it
    waited did. *)
Lemma waitForMemory_quotas (wakes : list Wake) :
  Forall (fun k => forall b, quotas (others k b) = quotas b) wakes ->
  forall (w : World) (a : appHerder), quotas (herderOf (waitForMemory wakes w a)) = quotas a.
Proof.
  induction 1 as [|k wakes Hk Hwakes IH]; intros w a; cbn [waitForMemory];
    pose proof (overMemQuota_state w a) as Hst;
    destruct (overMemQuotaForIndexingLOCKED w a) as [[over a1] t1];
    cbn [fst snd] in Hst; subst a1; destruct over; try reflexivity.
  unfold beforeWait, afterWait. run_M.
  match goal with |- quotas (herderOf (after _ ?o)) = _ =>
    replace (herderOf (after _ o)) with (herderOf o) by (destruct o; reflexivity) end.
  rewrite IH. unfold quotas at 1. simpl.
  specialize (Hk (set_waiting (wrapInt (waiting a + 1)) a)).
  unfold quotas in Hk. simpl in Hk. exact Hk.
Qed.

Lemma stateAfter_StartQuery_quotas (w : World) (size : Z) (a : appHerder) :
  quotas (stateAfter (StartQuery w size) a) = quotas a.
Proof.
  unfold stateAfter. rewrite StartQuery_run.
  destruct (_ >? queryQuota a); [reflexivity|]. destruct (_ >? appQuota a); reflexivity.
Qed.

Lemma onBatchExecuteStart_quotas (c : handle) (s : sizeFunc) (wakes : list Wake)
    (w : World) (a : appHerder) :
  Forall (fun k => forall b, quotas (others k b) = quotas b) wakes ->
  quotas (herderOf (onBatchExecuteStart c s wakes w a)) = quotas a.
Proof.
  intros H. unfold onBatchExecuteStart. rewrite waitForMemory_quotas by exact H. reflexivity.
Qed.

Lemma onMossEvent_quotas (event : moss.Event) (wakes : list Wake) (w : World) (a : appHerder) :
  Forall (fun k => forall b, quotas (others k b) = quotas b) wakes ->
  quotas (herderOf (onMossEvent event wakes w a)) = quotas a.
Proof.
  intros H. unfold onMossEvent.
  destruct (moss.LowerLevelUpdate _); [|reflexivity].
  destruct (moss.Kind event); try reflexivity.
  - unfold returns. rewrite onClose_run. reflexivity.
  - apply onBatchExecuteStart_quotas, H.
  - unfold returns, onPersisterProgress. run_M. destruct (waiting a >? 0); reflexivity.
Qed.

Lemma onScorchEvent_quotas (event : scorch.Event) (wakes : list Wake) (w : World)
    (a : appHerder) :
  Forall (fun k => forall b, quotas (others k b) = quotas b) wakes ->
  quotas (herderOf (onScorchEvent event wakes w a)) = quotas a.
Proof.
  intros H. unfold onScorchEvent.
  destruct (scorch.Kind event); try reflexivity.
  - unfold returns. rewrite onClose_run. reflexivity.
  - apply onBatchExecuteStart_quotas, H.
  - unfold returns, onPersisterProgress. run_M. destruct (waiting a >? 0); reflexivity.
Qed.

(** No critical section of any goroutine changes a quota. *)
Lemma runCall_quotas (w : World) (call : Call) (a : appHerder) :
  quotas (runCall w call a) = quotas a.
Proof.
  destruct call; cbn [runCall].
  - unfold stateAfter. rewrite onClose_run. reflexivity.
  - apply onBatchExecuteStart_quotas. constructor.
  - rewrite waitForMemory_quotas by constructor. reflexivity.
  - unfold stateAfter, onPersisterProgress. run_M. destruct (waiting a >? 0); reflexivity.
  - apply stateAfter_StartQuery_quotas.
  - unfold stateAfter. rewrite EndQuery_run. reflexivity.
  - apply onMossEvent_quotas. constructor.
  - apply onScorchEvent_quotas. constructor.
Qed.

Lemma runCalls_quotas (calls : list (World * Call)) :
  forall a : appHerder, quotas (runCalls calls a) = quotas a.
Proof.
  induction calls as [|[w call] calls IH]; intros a; simpl; [reflexivity|].
  unfold runCalls in *. simpl. rewrite IH. apply runCall_quotas.
Qed.

Lemma wakeAfter_quotas (scheds : list (list (World * Call) * World)) :
  Forall (fun k => forall b, quotas (others k b) = quotas b) (map wakeAfter scheds).
Proof.
  apply Forall_forall. intros k Hk. apply list_elem_of_In, in_map_iff in Hk.
  destruct Hk as [sched [<- _]]. intros b. apply runCalls_quotas.
Qed.

(** C4 (as amended).  [newAppHerder] computes the budgets once, from its
    arguments alone and in float64 arithmetic: [appQuota] is
    [uint64(float64(total) * appRatio)], the product rounded to the nearest
    float64 and then truncated, and [indexQuota] and [queryQuota] are
    computed likewise from [appQuota].  For a total below 2^53 and a ratio
    that is zero or positive, with the exact product below 2^53, [appQuota]
    is the floor or the ceiling of the exact product [total * appRatio]
    (less than one byte away from it); likewise [indexQuota] and
    [queryQuota] for the products with [appQuota].  For a total of 1000
    and the ratios 0.8, 0.5, 0.5 the quotas are 800, 400 and 400.  No
    critical section of any goroutine changes a quota afterwards: no
    method call, no wake-up of a writer, no interleaving of them, nor a
    writer's call across all its wake-ups. *)
Theorem quotas_fixed_at_construction (unrepresentable : float64 -> Z) (total : Z)
    (appRatio indexRatio queryRatio : float64) :
  let a := (newAppHerder unrepresentable total appRatio indexRatio queryRatio).1 in
  (memQuota a = total
   /\ appQuota a
      = uint64_of_float64 unrepresentable (float64_mul (float64_of_uint64 total) appRatio)
   /\ indexQuota a
      = uint64_of_float64 unrepresentable
          (float64_mul (float64_of_uint64 (appQuota a)) indexRatio)
   /\ queryQuota a
      = uint64_of_float64 unrepresentable
          (float64_mul (float64_of_uint64 (appQuota a)) queryRatio))
  /\ (0 <= total < 2 ^ 53 -> nonnegative appRatio ->
      productFloor total appRatio < 2 ^ 53 ->
      productFloor total appRatio <= appQuota a <= productCeil total appRatio)
  /\ (appQuota a < 2 ^ 53 -> nonnegative indexRatio ->
      productFloor (appQuota a) indexRatio < 2 ^ 53 ->
      productFloor (appQuota a) indexRatio <= indexQuota a
      <= productCeil (appQuota a) indexRatio)
  /\ (appQuota a < 2 ^ 53 -> nonnegative queryRatio ->
      productFloor (appQuota a) queryRatio < 2 ^ 53 ->
      productFloor (appQuota a) queryRatio <= queryQuota a
      <= productCeil (appQuota a) queryRatio)
  /\ quotas (newAppHerder unrepresentable 1000 (float64_of_ratio 8 10) (float64_of_ratio 1 2)
               (float64_of_ratio 1 2)).1 = (1000, 800, 400, 400)
  /\ (forall (w : World) (call : Call) (b : appHerder), quotas (runCall w call b) = quotas b)
  /\ (forall (calls : list (World * Call)) (b : appHerder),
        quotas (runCalls calls b) = quotas b)
  /\ (forall (c : handle) (s : sizeFunc) (scheds : list (list (World * Call) * World))
        (w : World) (b : appHerder),
        quotas (herderOf (onBatchExecuteStart c s (map wakeAfter scheds) w b)) = quotas b)
  /\ (forall (event : moss.Event) (scheds : list (list (World * Call) * World))
        (w : World) (b : appHerder),
        quotas (herderOf (onMossEvent event (map wakeAfter scheds) w b)) = quotas b)
  /\ (forall (event : scorch.Event) (scheds : list (list (World * Call) * World))
        (w : World) (b : appHerder),
        quotas (herderOf (onScorchEvent event (map wakeAfter scheds) w b)) = quotas b).
Proof.
  intros a.
  assert (Happ : 0 <= appQuota a).
  { apply (uint64_of_float64_range unrepresentable). }
  split; [repeat split|].
  split; [apply quota_within_truncation|].
  split; [intros H; apply quota_within_truncation; lia|].
  split; [intros H; apply quota_within_truncation; lia|].
  split; [vm_compute; reflexivity|].
  split; [apply runCall_quotas|].
  split; [intros; apply runCalls_quotas|].
  split; [intros; apply onBatchExecuteStart_quotas, wakeAfter_quotas|].
  split; [intros; apply onMossEvent_quotas, wakeAfter_quotas|].
  intros; apply onScorchEvent_quotas, wakeAfter_quotas.
Qed.

(** C4 at scenario 1: a total of 1000 with the ratio 0.8 (as a float64,
    a little above 8/10) gives an [appQuota] between the floor 800 and the
    ceiling 801 of the exact product. *)
Lemma quotas_fixed_at_construction_witness :
  productFloor 1000 (float64_of_ratio 8 10)
  <= appQuota (newAppHerder (fun _ => 0) 1000 (float64_of_ratio 8 10) (float64_of_ratio 1 2)
                 (float64_of_ratio 1 2)).1
  <= productCeil 1000 (float64_of_ratio 8 10).
Proof.
  refine (proj1 (proj2 (quotas_fixed_at_construction (fun _ => 0) 1000
                          (float64_of_ratio 8 10) (float64_of_ratio 1 2)
                          (float64_of_ratio 1 2))) _ _ _).
  - vm_compute. split; [discriminate | reflexivity].
  - vm_compute. exact I.
  - vm_compute. reflexivity.
Defined.

(** C4, the claim as stated fails for large totals.  A total of 2^60+100
    with the ratio 1 has the exact product 2^60+100, and [appQuota] is
    2^60: [float64(total)] already rounded the total to 53 bits. *)
Lemma newAppHerder_rounds :
  appQuota (newAppHerder (fun _ => 0) (2 ^ 60 + 100) (float64_of_ratio 1 1)
              (float64_of_ratio 1 2) (float64_of_ratio 1 2)).1 = 2 ^ 60
  /\ productFloor (2 ^ 60 + 100) (float64_of_ratio 1 1) = 2 ^ 60 + 100
  /\ productCeil (2 ^ 60 + 100) (float64_of_ratio 1 1) = 2 ^ 60 + 100.
Proof. vm_compute. repeat split; reflexivity. Qed.

(** The herder of the scenarios is the one [newAppHerder] builds. *)
Lemma scenarioHerder_constructed (unrepresentable : float64 -> Z) :
  (newAppHerder unrepresentable 1000 (float64_of_ratio 8 10) (float64_of_ratio 1 2)
     (float64_of_ratio 1 2)).1 = scenarioHerder.
Proof. vm_compute. reflexivity. Qed.

(** ** Further properties *)

(** X1.  A progress notification changes nothing in the herder, so repeating
    it is harmless; with no writer waiting its only effect is the
    broadcast. *)
Theorem onPersisterProgress_harmless (a : appHerder) :
  stateAfter onPersisterProgress a = a
  /\ stateAfter onPersisterProgress (stateAfter onPersisterProgress a) = a
  /\ (waiting a <= 0 -> onPersisterProgress a = (tt, a, [Broadcast])).
Proof.
  assert (H : stateAfter onPersisterProgress a = a).
  { unfold stateAfter, onPersisterProgress. run_M. destruct (waiting a >? 0); reflexivity. }
  split; [exact H|]. split; [rewrite H; exact H|].
  intros Hw. apply gtb_false in Hw. unfold onPersisterProgress. run_M.
  rewrite Hw. reflexivity.
Qed.



Lemma waitForMemory_nil_runningQueryUsed (w : World) (a : appHerder) :
  runningQueryUsed (herderOf (waitForMemory [] w a)) = runningQueryUsed a.
Proof.
  cbn [waitForMemory]. pose proof (overMemQuota_state w a) as Hst.
  destruct (overMemQuotaForIndexingLOCKED w a) as [[over a1] t1].
  cbn [fst snd] in Hst. subst a1. destruct over; reflexivity.
Qed.



(** ** Query accounting over interleavings *)

Lemma runCalls_cons (w : World) (call : Call) (calls : list (World * Call)) (a : appHerder) :
  runCalls ((w, call) :: calls) a = runCalls calls (runCall w call a).
Proof. reflexivity. Qed.

Lemma onMossEvent_nil_runningQueryUsed (event : moss.Event) (w : World) (a : appHerder) :
  runningQueryUsed (herderOf (onMossEvent event [] w a)) = runningQueryUsed a.
Proof.
  unfold onMossEvent. destruct (moss.LowerLevelUpdate _); [|reflexivity].
  destruct (moss.Kind event); try reflexivity.
  - unfold returns. rewrite onClose_run. reflexivity.
  - unfold onBatchExecuteStart. rewrite waitForMemory_nil_runningQueryUsed. reflexivity.
  - unfold returns, onPersisterProgress. run_M. destruct (waiting a >? 0); reflexivity.
Qed.

Lemma onScorchEvent_nil_runningQueryUsed (event : scorch.Event) (w : World) (a : appHerder) :
  runningQueryUsed (herderOf (onScorchEvent event [] w a)) = runningQueryUsed a.
Proof.
  unfold onScorchEvent. destruct (scorch.Kind event); try reflexivity.
  - unfold returns. rewrite onClose_run. reflexivity.
  - unfold onBatchExecuteStart. rewrite waitForMemory_nil_runningQueryUsed. reflexivity.
  - unfold returns, onPersisterProgress. run_M. destruct (waiting a >? 0); reflexivity.
Qed.

(** One critical section moves [runningQueryUsed] by its [queryDelta],
    modulo 2^64. *)
Lemma runCall_runningQueryUsed (w : World) (call : Call) (a : appHerder) :
  is_uint64 (runningQueryUsed a) ->
  runningQueryUsed (runCall w call a) = wrap64 (runningQueryUsed a + queryDelta w call a).
Proof.
  intros H.
  assert (Hsame : runningQueryUsed a = wrap64 (runningQueryUsed a + 0)).
  { rewrite Z.add_0_r. symmetry. apply wrap64_small, H. }
  destruct call as [c|c s| | |size|size|event|event]; cbn [runCall queryDelta].
  - unfold stateAfter. rewrite onClose_run. exact Hsame.
  - unfold onBatchExecuteStart. rewrite waitForMemory_nil_runningQueryUsed. exact Hsame.
  - rewrite waitForMemory_nil_runningQueryUsed. exact Hsame.
  - unfold stateAfter, onPersisterProgress. run_M. destruct (waiting a >? 0); exact Hsame.
  - unfold stateAfter. rewrite StartQuery_run.
    destruct (_ >? queryQuota a); [exact Hsame|].
    destruct (_ >? appQuota a); [exact Hsame | reflexivity].
  - unfold stateAfter. rewrite EndQuery_run. reflexivity.
  - rewrite onMossEvent_nil_runningQueryUsed. exact Hsame.
  - rewrite onScorchEvent_nil_runningQueryUsed. exact Hsame.
Qed.

Lemma runCalls_runningQueryUsed (calls : list (World * Call)) :
  forall a : appHerder,
    is_uint64 (runningQueryUsed a) ->
    runningQueryUsed (runCalls calls a) = wrap64 (runningQueryUsed a + queryNet calls a).
Proof.
  induction calls as [|[w call] calls IH]; intros a H.
  - cbn. rewrite Z.add_0_r. symmetry. apply wrap64_small, H.
  - rewrite runCalls_cons. cbn [queryNet].
    pose proof (runCall_runningQueryUsed w call a H) as Hstep.
    rewrite IH by (rewrite Hstep; apply wrap64_range).
    rewrite Hstep, wrap64_add_l. f_equal. lia.
Qed.

(** X4.  Through any interleaving of critical sections (queries starting
    and ending in any order, writers registering, blocking and waking up,
    indexes closing, progress notifications), [runningQueryUsed] is its
    initial value plus the sizes of the admitted queries less the sizes
    given to [EndQuery], modulo 2^64; when the two balance, it is back at
    its initial value, and the quotas are as before. *)
Theorem runningQueryUsed_accounts (calls : list (World * Call)) (a : appHerder) :
  is_uint64 (runningQueryUsed a) ->
  runningQueryUsed (runCalls calls a) = wrap64 (runningQueryUsed a + queryNet calls a)
  /\ (queryNet calls a = 0 -> runningQueryUsed (runCalls calls a) = runningQueryUsed a)
  /\ quotas (runCalls calls a) = quotas a.
Proof.
  intros H. pose proof (runCalls_runningQueryUsed calls a H) as Hnet.
  split; [exact Hnet|]. split; [|apply runCalls_quotas].
  intros Hz. rewrite Hnet, Hz, Z.add_0_r. apply wrap64_small, H.
Qed.

(** X4 at scenario 5: queries of 50 and 30 bytes start, index A closes,
    both queries end, and no byte is left running. *)
Lemma runningQueryUsed_accounts_witness :
  runningQueryUsed (runCalls scenarioQueries herderWithA) = runningQueryUsed herderWithA.
Proof.
  refine (proj1 (proj2 (runningQueryUsed_accounts scenarioQueries herderWithA _)) _).
  - vm_compute. split; [discriminate | reflexivity].
  - vm_compute. reflexivity.
Defined.

Lemma runCall_queryQuota (w : World) (call : Call) (a : appHerder) :
  queryQuota (runCall w call a) = queryQuota a.
Proof.
  pose proof (runCall_quotas w call a) as H. unfold quotas in H. congruence.
Qed.

(** One critical section keeps the running queries within the query quota
    if it is not an [EndQuery] of more than what is running. *)
Lemma runCall_within_queryQuota (w : World) (call : Call) (a : appHerder) :
  is_uint64 (runningQueryUsed a) ->
  runningQueryUsed a <= queryQuota a ->
  match call with
  | CallEndQuery size => 0 <= size <= runningQueryUsed a
  | _ => True
  end ->
  runningQueryUsed (runCall w call a) <= queryQuota a.
Proof.
  intros H Hq Hend.
  destruct call as [c|c s| | |size|size|event|event];
    try (rewrite runCall_runningQueryUsed by exact H; cbn [queryDelta];
         rewrite Z.add_0_r, wrap64_small by exact H; exact Hq).
  - cbn [runCall]. unfold stateAfter. rewrite StartQuery_run.
    destruct (_ >? queryQuota a) eqn:E; [exact Hq|].
    apply gtb_false in E.
    destruct (_ >? appQuota a); [exact Hq | exact E].
  - rewrite runCall_runningQueryUsed by exact H. cbn [queryDelta].
    rewrite wrap64_small; [lia|]. unfold is_uint64 in *. lia.
Qed.

(** X5.  The running queries never exceed the query quota: if
    [runningQueryUsed] is at most [queryQuota], it still is after any
    interleaving of critical sections in which every [EndQuery] is given at
    most the bytes running at that moment; and it is then never
    negative. *)
Theorem runningQueryUsed_within_queryQuota (calls : list (World * Call)) (a : appHerder) :
  is_uint64 (runningQueryUsed a) ->
  runningQueryUsed a <= queryQuota a ->
  endsWithinRunning calls a ->
  0 <= runningQueryUsed (runCalls calls a) <= queryQuota a.
Proof.
  revert a. induction calls as [|[w call] calls IH]; intros a H Hq Hends.
  - cbn. unfold is_uint64 in H. lia.
  - rewrite runCalls_cons. destruct Hends as [Hend Hrest].
    rewrite <- (runCall_queryQuota w call a).
    apply IH; [|rewrite runCall_queryQuota; apply runCall_within_queryQuota; assumption
              |exact Hrest].
    rewrite runCall_runningQueryUsed by exact H. apply wrap64_range.
Qed.

(** X5 at scenario 5: after the two queries started and ended, the
    running total is within the query quota of 400. *)
Lemma runningQueryUsed_within_queryQuota_witness :
  0 <= runningQueryUsed (runCalls scenarioQueries herderWithA) <= queryQuota herderWithA.
Proof.
  refine (runningQueryUsed_within_queryQuota scenarioQueries herderWithA _ _ _).
  - vm_compute. split; [discriminate | reflexivity].
  - vm_compute. discriminate.
  - vm_compute. repeat split; discriminate.
Defined.

(** ** Admission is monotone where nothing wraps *)

(** X6.  Where the sums do not wrap, admission is monotone in the size:
    if [StartQuery(size)] admits, so does [StartQuery(size')] for every
    smaller size, and if [StartQuery(size')] rejects, so does
    [StartQuery(size)] for every larger size below the wrap. *)
Theorem StartQuery_monotone (w : World) (size size' : Z) (a : appHerder) :
  0 <= runningQueryUsed a -> 0 <= sumSizeProbe w a ->
  0 <= size' <= size ->
  runningQueryUsed a + size + sumSizeProbe w a < uint64_modulus ->
  ((StartQuery w size a).1.1 = None -> (StartQuery w size' a).1.1 = None)
  /\ ((StartQuery w size' a).1.1 <> None -> (StartQuery w size a).1.1 <> None).
Proof.
  intros Hr Hs Hsz Hlt.
  assert (Hmono : (StartQuery w size a).1.1 = None -> (StartQuery w size' a).1.1 = None).
  { rewrite !StartQuery_run.
    rewrite !wrap64_small by (unfold is_uint64; lia).
    destruct (runningQueryUsed a + size >? queryQuota a) eqn:E1; [discriminate|].
    destruct (runningQueryUsed a + size + sumSizeProbe w a >? appQuota a) eqn:E2;
      [discriminate|].
    apply gtb_false in E1. apply gtb_false in E2. intros _.
    replace (runningQueryUsed a + size' >? queryQuota a) with false
      by (symmetry; apply gtb_false; lia).
    replace (runningQueryUsed a + size' + sumSizeProbe w a >? appQuota a) with false
      by (symmetry; apply gtb_false; lia).
    reflexivity. }
  split; [exact Hmono|]. intros Hrej Hadm. apply Hrej, Hmono, Hadm.
Qed.

(** X6 at scenario 1: a query of 100 bytes is admitted next to index A,
    hence so is one of 50. *)
Lemma StartQuery_monotone_witness :
  (StartQuery scenarioWorld 50 herderWithA).1.1 = None.
Proof.
  refine (proj1 (StartQuery_monotone scenarioWorld 100 50 herderWithA _ _ _ _) _);
    vm_compute; first [reflexivity | discriminate | split; discriminate].
Defined.

(** ** Reclaiming memory never puts the herder over budget *)

(** X7.  Where the sums do not wrap, giving memory back never turns a
    herder that is within budget into one that is over budget: neither
    closing an index (tracked with a reading between 0 and the sum, or not
    tracked at all) nor ending a query of at most the running bytes. *)
Theorem reclaim_stays_within_budget (w : World) (c : handle) (size : Z) (a : appHerder) :
  overBudget w a = false ->
  0 <= runningQueryUsed a ->
  sumSizeProbe w a + runningQueryUsed a < uint64_modulus ->
  0 <= readingOf w a c <= sumSizeProbe w a ->
  0 <= size <= runningQueryUsed a ->
  overBudget w (stateAfter (onClose c) a) = false
  /\ overBudget w (stateAfter (EndQuery size) a) = false.
Proof.
  intros Hok Hr Hlt Hread Hsize.
  assert (Hs : 0 <= sumSizeProbe w a) by lia.
  assert (Hin : sumSizeProbe w a <= indexQuota a
                /\ sumSizeProbe w a + runningQueryUsed a <= appQuota a).
  { pose proof (overBudget_wrap w a) as Hiff. rewrite Hok in Hiff.
    rewrite !wrap64_small in Hiff by (unfold is_uint64; lia).
    split; apply Z.le_ngt; intros Hgt; assert (false = true) as Hf
      by (apply Hiff; lia); discriminate. }
  split.
  - apply not_true_is_false. intros Hover. apply overBudget_wrap in Hover.
    assert (Hsum : sumSizeProbe w (stateAfter (onClose c) a)
                   = sumSizeProbe w a - readingOf w a c).
    { unfold stateAfter, readingOf. rewrite onClose_run. cbn [fst snd].
      destruct (indexes a !! c) as [s|] eqn:Ec.
      - apply sumSizeProbe_delete, Ec.
      - rewrite delete_id by exact Ec. rewrite set_indexes_same. lia. }
    assert (Hst : indexQuota (stateAfter (onClose c) a) = indexQuota a
                  /\ appQuota (stateAfter (onClose c) a) = appQuota a
                  /\ runningQueryUsed (stateAfter (onClose c) a) = runningQueryUsed a).
    { unfold stateAfter. rewrite onClose_run. repeat split. }
    destruct Hst as (Hi & Ha & Hq). rewrite Hsum, Hi, Ha, Hq in Hover.
    rewrite !wrap64_small in Hover by (unfold is_uint64; lia). lia.
  - apply not_true_is_false. intros Hover. apply overBudget_wrap in Hover.
    unfold stateAfter in Hover. rewrite EndQuery_run in Hover. cbn [fst snd] in Hover.
    change (sumSizeProbe w (set_runningQueryUsed ?n a)) with (sumSizeProbe w a) in Hover.
    cbn [indexQuota appQuota runningQueryUsed set_runningQueryUsed] in Hover.
    rewrite (wrap64_small (runningQueryUsed a - size)) in Hover by (unfold is_uint64; lia).
    rewrite !wrap64_small in Hover by (unfold is_uint64; lia). lia.
Qed.

(** X7 at scenario 1: with index A registered the herder is within
    budget, and it still is once A has closed. *)
Lemma reclaim_stays_within_budget_witness :
  overBudget scenarioWorld (stateAfter (onClose indexA) herderWithA) = false.
Proof.
  refine (proj1 (reclaim_stays_within_budget scenarioWorld indexA 0 herderWithA _ _ _ _ _));
    vm_compute; first [reflexivity | discriminate | split; discriminate].
Defined.

(** ** The first calls on a fresh herder *)

Lemma sumSizeProbe_empty (w : World) (a : appHerder) :
  indexes a = ∅ -> sumSizeProbe w a = 0.
Proof. intros H. unfold sumSizeProbe. rewrite H. apply map_fold_empty. Qed.

Lemma onBatchExecuteStart_returned_iff (c : handle) (s : sizeFunc) (w : World)
    (a : appHerder) :
  (exists tr, onBatchExecuteStart c s [] w a
              = Returned (set_indexes (<[c := s]> (indexes a)) a) w tr)
  <-> overBudget w (set_indexes (<[c := s]> (indexes a)) a) = false.
Proof.
  unfold onBatchExecuteStart. split.
  - intros [tr H]. eapply waitForMemory_returned, H.
  - intros H. rewrite (waitForMemory_within_budget [] _ _ H). eauto.
Qed.

(** X8.  On the herder [newAppHerder] has just built, whatever the total
    and the ratios: nothing is over budget yet; a first query of a
    [uint64] size is admitted exactly when the size is at most
    [queryQuota] and at most [appQuota]; and the first writer returns at
    once exactly when its index's reading, a [uint64], is at most
    [indexQuota] and at most [appQuota]. *)
Theorem first_calls_on_fresh_herder (unrepresentable : float64 -> Z) (total : Z)
    (appRatio indexRatio queryRatio : float64) (w : World) (size : Z)
    (c : handle) (s : sizeFunc) :
  let a := (newAppHerder unrepresentable total appRatio indexRatio queryRatio).1 in
  overBudget w a = false
  /\ (is_uint64 size ->
      ((StartQuery w size a).1.1 = None <-> size <= queryQuota a /\ size <= appQuota a))
  /\ (is_uint64 (s w c).1 ->
      ((exists tr, onBatchExecuteStart c s [] w a
                   = Returned (set_indexes (<[c := s]> (indexes a)) a) w tr)
       <-> (s w c).1 <= indexQuota a /\ (s w c).1 <= appQuota a)).
Proof.
  intros a.
  assert (Hsum : sumSizeProbe w a = 0) by (apply sumSizeProbe_empty; reflexivity).
  assert (Hr : runningQueryUsed a = 0) by reflexivity.
  assert (Hi : is_uint64 (indexQuota a)) by apply (uint64_of_float64_range unrepresentable).
  assert (Ha : is_uint64 (appQuota a)) by apply (uint64_of_float64_range unrepresentable).
  split; [|split].
  - apply not_true_is_false. intros Hover. apply overBudget_wrap in Hover.
    rewrite Hsum, Hr in Hover. change (wrap64 (0 + 0)) with 0 in Hover.
    change (wrap64 0) with 0 in Hover. unfold is_uint64 in *. lia.
  - intros Hsize. rewrite StartQuery_run, Hsum, Hr, Z.add_0_r, Z.add_0_l.
    rewrite wrap64_small by exact Hsize.
    destruct (size >? queryQuota a) eqn:E1.
    + apply gtb_true in E1. cbn [fst]. split; [discriminate | lia].
    + apply gtb_false in E1. destruct (size >? appQuota a) eqn:E2.
      * apply gtb_true in E2. cbn [fst]. split; [discriminate | lia].
      * apply gtb_false in E2. cbn [fst]. split; [intros _; lia | reflexivity].
  - intros Hv. rewrite onBatchExecuteStart_returned_iff.
    set (a1 := set_indexes (<[c := s]> (indexes a)) a).
    assert (Hsum1 : sumSizeProbe w a1 = (s w c).1).
    { unfold a1. rewrite sumSizeProbe_insert by apply lookup_empty. rewrite Hsum. lia. }
    split.
    + intros Hok. pose proof (overBudget_wrap w a1) as Hiff. rewrite Hok in Hiff.
      rewrite Hsum1 in Hiff. change (runningQueryUsed a1) with 0 in Hiff.
      rewrite Z.add_0_r, wrap64_small in Hiff by exact Hv.
      change (indexQuota a1) with (indexQuota a) in Hiff.
      change (appQuota a1) with (appQuota a) in Hiff.
      split; apply Z.le_ngt; intros Hgt; assert (false = true) as Hf
        by (apply Hiff; lia); discriminate.
    + intros [H1 H2]. apply not_true_is_false. intros Hover.
      apply overBudget_wrap in Hover. rewrite Hsum1 in Hover.
      change (runningQueryUsed a1) with 0 in Hover.
      rewrite Z.add_0_r, wrap64_small in Hover by exact Hv.
      change (indexQuota a1) with (indexQuota a) in Hover.
      change (appQuota a1) with (appQuota a) in Hover. lia.
Qed.

(** X8 at scenario 1: on the fresh herder with quotas 800, 400 and 400 a
    first query of 100 bytes is admitted. *)
Lemma first_calls_on_fresh_herder_witness :
  (StartQuery scenarioWorld 100
     (newAppHerder (fun _ => 0) 1000 (float64_of_ratio 8 10) (float64_of_ratio 1 2)
        (float64_of_ratio 1 2)).1).1.1 = None.
Proof.
  refine (proj2 (proj1 (proj2 (first_calls_on_fresh_herder (fun _ => 0) 1000
                                 (float64_of_ratio 8 10) (float64_of_ratio 1 2)
                                 (float64_of_ratio 1 2) scenarioWorld 100 indexA scorchSize))
                   _) _).
  - vm_compute. split; [discriminate | reflexivity].
  - vm_compute. split; discriminate.
Defined.

(** ** Registering a handle again *)

Lemma sumSizeProbe_register (w : World) (a : appHerder) (c : handle) (s : sizeFunc) :
  sumSizeProbe w (set_indexes (<[c := s]> (indexes a)) a)
  = sumSizeProbe w a - readingOf w a c + (s w c).1.
Proof.
  unfold readingOf. destruct (indexes a !! c) as [s0|] eqn:Ec.
  - pose proof (sumSizeProbe_delete w a c s0 Ec) as Hdel.
    set (a0 := set_indexes (delete c (indexes a)) a) in *.
    assert (Hins : set_indexes (<[c := s]> (indexes a)) a
                   = set_indexes (<[c := s]> (indexes a0)) a0).
    { unfold a0. cbn [indexes set_indexes]. rewrite insert_delete_eq. reflexivity. }
    rewrite Hins, sumSizeProbe_insert by (unfold a0; cbn; apply lookup_delete_eq). lia.
  - rewrite sumSizeProbe_insert by exact Ec. lia.
Qed.

(** X9.  [onBatchExecuteStart(c, s)] tracks [c] with the probe [s] and
    leaves every other handle's entry alone.  A handle that was tracked
    already is tracked once, with the new probe in place of the old one:
    the number of entries is unchanged, and the usage sum loses the old
    probe's reading and gains the new one (for a new handle it only gains);
    registering once more with the same probe leaves the map as it is. *)
Theorem onBatchExecuteStart_overwrites (c : handle) (s : sizeFunc) (w : World)
    (a : appHerder) :
  let a' := herderOf (onBatchExecuteStart c s [] w a) in
  indexes a' !! c = Some s
  /\ (forall c' : handle, c' <> c -> indexes a' !! c' = indexes a !! c')
  /\ sumSizeProbe w a' = sumSizeProbe w a - readingOf w a c + (s w c).1
  /\ (indexes a !! c <> None -> size (indexes a') = size (indexes a))
  /\ (indexes a !! c = None -> size (indexes a') = S (size (indexes a)))
  /\ indexes (herderOf (onBatchExecuteStart c s [] w a')) = indexes a'.
Proof.
  intros a'.
  assert (Hidx : indexes a' = <[c := s]> (indexes a)) by apply onBatchExecuteStart_inserts.
  assert (Hsum : forall b b' : appHerder, indexes b = indexes b' ->
                   sumSizeProbe w b = sumSizeProbe w b').
  { intros b b' Hb. unfold sumSizeProbe. rewrite Hb. reflexivity. }
  split; [rewrite Hidx; apply lookup_insert_eq|].
  split; [intros c' Hne; rewrite Hidx; apply lookup_insert_ne; congruence|].
  split.
  { rewrite <- sumSizeProbe_register. apply Hsum. rewrite Hidx. reflexivity. }
  split.
  { intros Hc. rewrite Hidx. destruct (indexes a !! c) as [s0|] eqn:Ec; [|congruence].
    apply map_size_insert_Some. rewrite Ec. eauto. }
  split.
  { intros Hc. rewrite Hidx. apply map_size_insert_None, Hc. }
  rewrite onBatchExecuteStart_inserts, Hidx. apply insert_insert_eq.
Qed.

(** X9 at scenario 1: index A registers a second time, now with the moss
    probe (100 dirty bytes) in place of the scorch probe (300 bytes), and
    the usage sum goes from 300 to 100. *)
Lemma onBatchExecuteStart_overwrites_witness :
  sumSizeProbe scenarioWorld
    (herderOf (onBatchExecuteStart indexA mossSize [] scenarioWorld herderWithA))
  = 300 - 300 + 100.
Proof.
  exact (proj1 (proj2 (proj2 (onBatchExecuteStart_overwrites indexA mossSize scenarioWorld
                                herderWithA)))).
Defined.

(** ** The waiting count *)

Lemma wrapInt_small (z : Z) : - 2 ^ 63 <= z < 2 ^ 63 -> wrapInt z = z.
Proof. intros H. unfold wrapInt. rewrite Z.mod_small; lia. Qed.

Lemma waitForMemory_waiting (wakes : list Wake) :
  Forall (fun k => forall b, waiting (others k b) = waiting b) wakes ->
  forall (w : World) (a : appHerder),
    - 2 ^ 63 <= waiting a < 2 ^ 63 - 1 ->
    match waitForMemory wakes w a with
    | Returned a' _ _ => waiting a' = waiting a
    | Parked a' _ => waiting a' = waiting a + 1
    end.
Proof.
  induction 1 as [|k wakes Hk Hwakes IH]; intros w a Hrange; cbn [waitForMemory];
    pose proof (overMemQuota_state w a) as Hst;
    destruct (overMemQuotaForIndexingLOCKED w a) as [[over a1] t1];
    cbn [fst snd] in Hst; subst a1; destruct over; try reflexivity.
  - unfold beforeWait. run_M. apply wrapInt_small. lia.
  - unfold beforeWait, afterWait. run_M.
    set (b := set_waiting (wrapInt (waiting a + 1)) a).
    assert (Hb : waiting (others k b) = waiting a + 1).
    { rewrite Hk. unfold b. cbn. apply wrapInt_small. lia. }
    set (a2 := set_waiting (wrapInt (waiting (others k b) - 1)) (others k b)).
    assert (Ha2 : waiting a2 = waiting a).
    { unfold a2. cbn. rewrite Hb. rewrite wrapInt_small by lia. lia. }
    specialize (IH (probes k) a2 ltac:(rewrite Ha2; exact Hrange)).
    destruct (waitForMemory wakes (probes k) a2); cbn [after]; lia.
Qed.

(** X10.  A writer counts itself in [waiting] exactly while it is blocked:
    if the goroutines that run while it waits leave the count as they
    found it, the count is back at its entry value when
    [onBatchExecuteStart] returns, after any number of wake-ups, and is one
    more while the call is blocked in [Wait] (the count being a Go [int]
    below its maximum). *)
Theorem onBatchExecuteStart_waiting_balanced (c : handle) (s : sizeFunc)
    (wakes : list Wake) (w : World) (a : appHerder) :
  - 2 ^ 63 <= waiting a < 2 ^ 63 - 1 ->
  Forall (fun k => forall b, waiting (others k b) = waiting b) wakes ->
  match onBatchExecuteStart c s wakes w a with
  | Returned a' _ _ => waiting a' = waiting a
  | Parked a' _ => waiting a' = waiting a + 1
  end.
Proof.
  intros Hrange Hwakes. unfold onBatchExecuteStart.
  apply (waitForMemory_waiting wakes Hwakes w (set_indexes (<[c := s]> (indexes a)) a)).
  exact Hrange.
Qed.

Lemma runCalls_onClose_waiting (w : World) (c : handle) (b : appHerder) :
  waiting (runCalls [(w, CallOnClose c)] b) = waiting b.
Proof. cbn. unfold stateAfter. rewrite onClose_run. reflexivity. Qed.

(** X10 at scenario 2: the writer of index B blocked once and returned
    after index A closed; no writer is counted as waiting any more. *)
Lemma onBatchExecuteStart_waiting_balanced_witness :
  match scenarioTwo with
  | Returned a' _ _ => waiting a' = waiting herderWithA
  | Parked a' _ => waiting a' = waiting herderWithA + 1
  end.
Proof.
  refine (onBatchExecuteStart_waiting_balanced indexB scorchSize
            [wakeAfter ([(scenarioWorld, CallOnClose indexA)], scenarioWorld)]
            scenarioWorld herderWithA _ _).
  - vm_compute. split; [discriminate | reflexivity].
  - constructor; [|constructor]. intros b. apply runCalls_onClose_waiting.
Defined.

(** ** The budgets are nested *)

Lemma atMostOne_products (total : Z) (ratio : float64) :
  0 <= total -> atMostOne ratio ->
  nonnegative ratio
  /\ productFloor total ratio <= productCeil total ratio
  /\ productCeil total ratio <= total.
Proof.
  intros Ht Hr. destruct ratio as [s| | |[|] m e]; try contradiction; cbn.
  - repeat split; lia.
  - destruct Hr as [He Hm]. split; [exact I|]. split; [apply floor_le_ceil|].
    replace e with (- (- e)) by lia. rewrite shiftl_neg by lia.
    assert (Hp : 0 < 2 ^ (- e)) by (apply Z.pow_pos_nonneg; lia).
    assert (- total <= - (total * Z.pos m) / 2 ^ (- e)); [|lia].
    apply Z.div_le_lower_bound; [exact Hp | nia].
Qed.

Lemma quota_at_most_total (u : float64 -> Z) (total : Z) (ratio : float64) :
  0 <= total < 2 ^ 53 -> atMostOne ratio ->
  uint64_of_float64 u (float64_mul (float64_of_uint64 total) ratio) <= total.
Proof.
  intros Ht Hr.
  destruct (atMostOne_products total ratio ltac:(lia) Hr) as (Hnn & Hfc & Hct).
  pose proof (quota_within_truncation u total ratio Ht Hnn ltac:(lia)). lia.
Qed.

(** X11.  For a total below 2^53 and ratios between 0 and 1, the budgets
    [newAppHerder] computes are nested: [appQuota] is at most the total,
    and [indexQuota] and [queryQuota] are at most [appQuota]; the rounding
    of float64 never pushes a budget above its parent. *)
Theorem quotas_nested (unrepresentable : float64 -> Z) (total : Z)
    (appRatio indexRatio queryRatio : float64) :
  0 <= total < 2 ^ 53 ->
  atMostOne appRatio -> atMostOne indexRatio -> atMostOne queryRatio ->
  let a := (newAppHerder unrepresentable total appRatio indexRatio queryRatio).1 in
  0 <= appQuota a <= memQuota a
  /\ 0 <= indexQuota a <= appQuota a
  /\ 0 <= queryQuota a <= appQuota a.
Proof.
  intros Ht Happ Hidx Hqry a.
  assert (Ha : appQuota a <= total) by (apply quota_at_most_total; assumption).
  assert (Ha0 : 0 <= appQuota a) by apply (uint64_of_float64_range unrepresentable).
  assert (Hi0 : 0 <= indexQuota a) by apply (uint64_of_float64_range unrepresentable).
  assert (Hq0 : 0 <= queryQuota a) by apply (uint64_of_float64_range unrepresentable).
  split; [split; [exact Ha0 | exact Ha]|].
  split; (split; [assumption|]); apply quota_at_most_total; try assumption; lia.
Qed.

(** X11 at scenario 1: with the ratios 0.8, 0.5 and 0.5 the index quota
    is within the application quota. *)
Lemma quotas_nested_witness :
  0 <= indexQuota (newAppHerder (fun _ => 0) 1000 (float64_of_ratio 8 10)
                     (float64_of_ratio 1 2) (float64_of_ratio 1 2)).1
  <= appQuota (newAppHerder (fun _ => 0) 1000 (float64_of_ratio 8 10)
                 (float64_of_ratio 1 2) (float64_of_ratio 1 2)).1.
Proof.
  refine (proj1 (proj2 (quotas_nested (fun _ => 0) 1000 (float64_of_ratio 8 10)
                          (float64_of_ratio 1 2) (float64_of_ratio 1 2) _ _ _ _))).
  - vm_compute. split; [discriminate | reflexivity].
  - vm_compute. split; discriminate.
  - vm_compute. split; discriminate.
  - vm_compute. split; discriminate.
Defined.

(** ** Queries of size zero *)

(** X12.  A query of size 0 reserves nothing: [StartQuery(0)] leaves the
    herder as it was whether it admits or rejects, and it still rejects
    when the running queries or the indexing usage are over their quotas;
    [EndQuery(0)] leaves the herder as it was. *)
Theorem zero_size_query (w : World) (a : appHerder) :
  is_uint64 (runningQueryUsed a) ->
  stateAfter (StartQuery w 0) a = a
  /\ stateAfter (EndQuery 0) a = a
  /\ ((StartQuery w 0 a).1.1 = None <->
      runningQueryUsed a <= queryQuota a
      /\ wrap64 (runningQueryUsed a + sumSizeProbe w a) <= appQuota a).
Proof.
  intros H. unfold stateAfter. rewrite StartQuery_run, EndQuery_run.
  rewrite !Z.add_0_r, Z.sub_0_r, (wrap64_small _ H).
  split; [|split].
  - destruct (_ >? queryQuota a); [reflexivity|].
    destruct (_ >? appQuota a); [reflexivity | apply set_runningQueryUsed_same].
  - apply set_runningQueryUsed_same.
  - destruct (runningQueryUsed a >? queryQuota a) eqn:E1.
    + apply gtb_true in E1. cbn [fst]. split; [discriminate | lia].
    + apply gtb_false in E1.
      destruct (wrap64 (runningQueryUsed a + sumSizeProbe w a) >? appQuota a) eqn:E2.
      * apply gtb_true in E2. cbn [fst]. split; [discriminate | lia].
      * apply gtb_false in E2. cbn [fst]. split; [intros _; lia | reflexivity].
Qed.

(** X12 at scenario 3: with 350 bytes of queries running, a query of
    size 0 leaves the herder as it is. *)
Lemma zero_size_query_witness :
  stateAfter (StartQuery scenarioWorld 0) herderWithQueries = herderWithQueries.
Proof.
  refine (proj1 (zero_size_query scenarioWorld herderWithQueries _)).
  vm_compute. split; [discriminate | reflexivity].
Defined.

(** ** An index that registers and closes *)

Lemma set_indexes_twice (m1 m2 : gmap handle sizeFunc) (a : appHerder) :
  set_indexes m1 (set_indexes m2 a) = set_indexes m1 a.
Proof. reflexivity. Qed.

Lemma register_then_close (c : handle) (s : sizeFunc) (w : World) (a : appHerder) :
  indexes a !! c = None ->
  overBudget w (set_indexes (<[c := s]> (indexes a)) a) = false ->
  stateAfter (onClose c) (herderOf (onBatchExecuteStart c s [] w a)) = a.
Proof.
  intros Hc Hok. unfold onBatchExecuteStart.
  rewrite (waitForMemory_within_budget [] _ _ Hok). cbn [herderOf].
  unfold stateAfter. rewrite onClose_run. cbn [fst snd indexes set_indexes].
  rewrite set_indexes_twice, delete_insert_eq, delete_id by exact Hc.
  apply set_indexes_same.
Qed.

(** X13.  An index that was not tracked, registers within budget (its
    writer does not wait) and then closes leaves the herder exactly as it
    was before, through either engine's events: a scorch index always, a
    moss collection when it opted in with [LowerLevelUpdate]. *)
Theorem register_close_round_trip (c : handle) (w w' : World) (a : appHerder) :
  indexes a !! c = None ->
  (overBudget w (set_indexes (<[c := scorchSize]> (indexes a)) a) = false ->
   herderOf (onScorchEvent {| scorch.Kind := scorch.EventKindClose; scorch.Scorch := c |}
               [] w'
               (herderOf (onScorchEvent
                            {| scorch.Kind := scorch.EventKindBatchIntroductionStart;
                               scorch.Scorch := c |} [] w a))) = a)
  /\ (overBudget w (set_indexes (<[c := mossSize]> (indexes a)) a) = false ->
      moss.LowerLevelUpdate (Options w c) <> None ->
      moss.LowerLevelUpdate (Options w' c) <> None ->
      herderOf (onMossEvent {| moss.Kind := moss.EventKindClose; moss.Collection := c |}
                  [] w'
                  (herderOf (onMossEvent
                               {| moss.Kind := moss.EventKindBatchExecuteStart;
                                  moss.Collection := c |} [] w a))) = a).
Proof.
  intros Hc. split.
  - intros Hok. unfold onScorchEvent. cbn [scorch.Kind scorch.Scorch].
    pose proof (register_then_close c scorchSize w a Hc Hok) as Hrt.
    unfold stateAfter in Hrt. unfold returns.
    destruct (onClose c (herderOf (onBatchExecuteStart c scorchSize [] w a)))
      as [[u b] t]. exact Hrt.
  - intros Hok Hw Hw'. unfold onMossEvent. cbn [moss.Kind moss.Collection].
    destruct (moss.LowerLevelUpdate (Options w c)); [|congruence].
    destruct (moss.LowerLevelUpdate (Options w' c)); [|congruence].
    pose proof (register_then_close c mossSize w a Hc Hok) as Hrt.
    unfold stateAfter in Hrt. unfold returns.
    destruct (onClose c (herderOf (onBatchExecuteStart c mossSize [] w a)))
      as [[u b] t]. exact Hrt.
Qed.

(** X13 at scenario 1: index A registers on the fresh herder and closes,
    and the herder is fresh again. *)
Lemma register_close_round_trip_witness :
  herderOf (onScorchEvent {| scorch.Kind := scorch.EventKindClose; scorch.Scorch := indexA |}
              [] scenarioWorld
              (herderOf (onScorchEvent
                           {| scorch.Kind := scorch.EventKindBatchIntroductionStart;
                              scorch.Scorch := indexA |} [] scenarioWorld scenarioHerder)))
  = scenarioHerder.
Proof.
  refine (proj1 (register_close_round_trip indexA scenarioWorld scenarioWorld
                   scenarioHerder _) _).
  - reflexivity.
  - vm_compute. reflexivity.
Defined.

(** ** What the decisions do not depend on *)

Lemma sumSizeProbe_indexes (w : World) (a b : appHerder) :
  indexes a = indexes b -> sumSizeProbe w a = sumSizeProbe w b.
Proof. intros H. unfold sumSizeProbe. rewrite H. reflexivity. Qed.

(** X14.  The waiting count and the total [memQuota] are diagnostics only:
    the usage test and the decision of [StartQuery] are the same whatever
    these two fields hold, and [StartQuery], [EndQuery] and [onClose] carry
    the waiting count through unchanged. *)
Theorem decisions_ignore_diagnostics (w : World) (size n total : Z) (c : handle)
    (a : appHerder) :
  let b := {| memQuota := total; appQuota := appQuota a; indexQuota := indexQuota a;
              queryQuota := queryQuota a; waiting := n; indexes := indexes a;
              runningQueryUsed := runningQueryUsed a |} in
  overBudget w b = overBudget w a
  /\ (StartQuery w size b).1.1 = (StartQuery w size a).1.1
  /\ runningQueryUsed (stateAfter (StartQuery w size) b)
     = runningQueryUsed (stateAfter (StartQuery w size) a)
  /\ waiting (stateAfter (StartQuery w size) b) = n
  /\ waiting (stateAfter (EndQuery size) b) = n
  /\ waiting (stateAfter (onClose c) b) = n.
Proof.
  intros b.
  assert (Hs : sumSizeProbe w b = sumSizeProbe w a) by (apply sumSizeProbe_indexes; reflexivity).
  split.
  { unfold overBudget. rewrite !overMemQuota_run, Hs. reflexivity. }
  unfold stateAfter. rewrite !StartQuery_run, EndQuery_run, onClose_run, Hs.
  cbn [runningQueryUsed queryQuota appQuota b].
  destruct (_ >? queryQuota a); [repeat split; reflexivity|].
  destruct (_ >? appQuota a); repeat split; reflexivity.
Qed.

(** ** The order of registration *)

Lemma onBatchExecuteStart_nil_runningQueryUsed (c : handle) (s : sizeFunc) (w : World)
    (a : appHerder) :
  runningQueryUsed (herderOf (onBatchExecuteStart c s [] w a)) = runningQueryUsed a.
Proof.
  unfold onBatchExecuteStart. rewrite waitForMemory_nil_runningQueryUsed. reflexivity.
Qed.

(** X15.  The order in which two different indexes register does not
    matter for what is tracked: the map of tracked indexes, the usage sum
    and the usage test are the same either way. *)
Theorem registration_order_irrelevant (c1 c2 : handle) (s1 s2 : sizeFunc) (w : World)
    (a : appHerder) :
  c1 <> c2 ->
  let a12 := herderOf (onBatchExecuteStart c2 s2 [] w
                         (herderOf (onBatchExecuteStart c1 s1 [] w a))) in
  let a21 := herderOf (onBatchExecuteStart c1 s1 [] w
                         (herderOf (onBatchExecuteStart c2 s2 [] w a))) in
  indexes a12 = indexes a21
  /\ sumSizeProbe w a12 = sumSizeProbe w a21
  /\ overBudget w a12 = overBudget w a21.
Proof.
  intros Hne a12 a21.
  assert (Hidx : indexes a12 = indexes a21).
  { unfold a12, a21. rewrite !onBatchExecuteStart_inserts. apply insert_insert_ne.
    congruence. }
  assert (Hq : quotas a12 = quotas a21).
  { unfold a12, a21. rewrite !onBatchExecuteStart_quotas by constructor. reflexivity. }
  assert (Hr : runningQueryUsed a12 = runningQueryUsed a21).
  { unfold a12, a21. rewrite !onBatchExecuteStart_nil_runningQueryUsed. reflexivity. }
  assert (Hs : sumSizeProbe w a12 = sumSizeProbe w a21) by (apply sumSizeProbe_indexes, Hidx).
  split; [exact Hidx|]. split; [exact Hs|].
  unfold overBudget. rewrite !overMemQuota_run, Hs, Hr. cbn [fst].
  unfold quotas in Hq. injection Hq as _ Ha Hi _. rewrite Ha, Hi. reflexivity.
Qed.

(** X15 at scenario 1: A then B, or B then A, the usage sum is the same. *)
Lemma registration_order_irrelevant_witness :
  sumSizeProbe scenarioWorld
    (herderOf (onBatchExecuteStart indexB scorchSize [] scenarioWorld
                 (herderOf (onBatchExecuteStart indexA scorchSize [] scenarioWorld
                              scenarioHerder))))
  = sumSizeProbe scenarioWorld
      (herderOf (onBatchExecuteStart indexA scorchSize [] scenarioWorld
                   (herderOf (onBatchExecuteStart indexB scorchSize [] scenarioWorld
                                scenarioHerder)))).
Proof.
  refine (proj1 (proj2 (registration_order_irrelevant indexA indexB scorchSize scorchSize
                          scenarioWorld scenarioHerder _))).
  discriminate.
Defined.
